(** * ELC Parking App: occupancy store, access policy, status classifier,
      client synchronizer and the server's REST handlers.

    The development embeds [parking_app_UPDATED.py] (module [Client]) and
    [parking_server.py] (module [Server]) and proves the properties of the
    specification about them.  Python [int] is [Z]; a Python exception is
    the [Raise] branch of [outcome]; module-level and object state is
    passed explicitly. *)

From Stdlib Require Import ZArith Lia Bool.
From Stdlib Require DecimalString DecimalZ DecimalPos.
From stdpp Require Import base list strings.

Local Open Scope string_scope.
Local Open Scope Z_scope.

(** ** Exceptions and fallible results *)

Inductive exn : Type :=
| ZeroDivisionError
| OverflowError
| IndexError
| KeyError
| ValueError
| OSError.

Inductive outcome (A : Type) : Type :=
| Ret (a : A)
| Raise (e : exn).
Arguments Ret {A} a.
Arguments Raise {A} e.

(** A generator that always draws the least count and the first positions;
    it serves to exhibit instances of the statements about random draws. *)
Definition least_randint (a b : Z) (g : unit) : Z * unit := (a, g).

Definition first_sample (n c : Z) (g : unit) : list nat * unit :=
  (seq 0 (Z.to_nat c), g).

(** ** Python's [int / int] and the float comparisons of [get_status]

    [a / b] on two Python ints is the binary64 number nearest to the exact
    quotient, ties to even; it raises [ZeroDivisionError] for [b = 0] and
    [OverflowError] when the result is too large, and underflows towards
    zero through the subnormal range.  A finite float is kept as
    [mant * 2 ^ expo]. *)

Module Float.

Record float : Type := mk_float { mant : Z; expo : Z }.

(** Nearest integer to [n / d] for [0 <= n], [0 < d], ties to even. *)
Definition round_half_even (n d : Z) : Z :=
  let q := n / d in
  let r := n mod d in
  if 2 * r <? d then q
  else if d <? 2 * r then q + 1
  else if Z.even q then q else q + 1.

(** [floor (log2 (n / d))] for [0 < n], [0 < d]. *)
Definition floor_log2_quot (n d : Z) : Z :=
  let k := Z.log2 n - Z.log2 d in
  if n * 2 ^ Z.max 0 (- k) <? d * 2 ^ Z.max 0 k then k - 1 else k.

Definition true_divide (a b : Z) : outcome float :=
  if b =? 0 then Raise ZeroDivisionError
  else if a =? 0 then Ret (mk_float 0 0)
  else
    let n := Z.abs a in
    let d := Z.abs b in
    let e := Z.max (floor_log2_quot n d - 52) (-1074) in
    let m := round_half_even (n * 2 ^ Z.max 0 (- e)) (d * 2 ^ Z.max 0 e) in
    if 2 ^ 1024 <=? m * 2 ^ Z.max 0 e then Raise OverflowError
    else Ret (mk_float (Z.sgn a * Z.sgn b * m) e).

(** The literal [0.3]: the binary64 number nearest to 3/10,
    [0x1.3333333333333p-2]. *)
Definition lit_0_3 : float := mk_float 5404319552844595 (-54).

(** An [int] operand of a mixed comparison. *)
Definition of_int (z : Z) : float := mk_float z 0.

(** Both mantissas brought to the smaller exponent. *)
Definition align (x y : float) : Z * Z :=
  let e := Z.min (expo x) (expo y) in
  (mant x * 2 ^ (expo x - e), mant y * 2 ^ (expo y - e)).

Definition geb (x y : float) : bool := snd (align x y) <=? fst (align x y).
Definition gtb (x y : float) : bool := snd (align x y) <? fst (align x y).

End Float.

(** ** The client: [parking_app_UPDATED.py] *)

Module Client.

Inductive UserType : Type := STUDENT | STAFF | VISITOR.

Inductive ParkingStatus : Type := AVAILABLE | LIMITED | FULL.

Definition UserType_eqb (a b : UserType) : bool :=
  match a, b with
  | STUDENT, STUDENT | STAFF, STAFF | VISITOR, VISITOR => true
  | _, _ => false
  end.

(** [user_type in [...]] *)
Definition UserType_in (u : UserType) (l : list UserType) : bool :=
  existsb (UserType_eqb u) l.

Record ParkingLot : Type := mk_ParkingLot {
  _lot_id : string;
  _name : string;
  _total_spaces : Z;
  _occupied_spaces : Z;
  _permit_type : string;
  _drive_time : Z
}.

(** [ParkingLot.__init__] *)
Definition new_ParkingLot (lot_id name : string) (total_spaces : Z)
    (permit_type : string) (drive_time : Z) : ParkingLot :=
  mk_ParkingLot lot_id name total_spaces 0 permit_type drive_time.

Definition available_spaces (self : ParkingLot) : Z :=
  _total_spaces self - _occupied_spaces self.

Definition get_status (self : ParkingLot) : outcome ParkingStatus :=
  match Float.true_divide (available_spaces self) (_total_spaces self) with
  | Raise e => Raise e
  | Ret availability_ratio =>
      if Float.geb availability_ratio Float.lit_0_3 then Ret AVAILABLE
      else if Float.gtb availability_ratio (Float.of_int 0) then Ret LIMITED
      else Ret FULL
  end.

Definition update_occupancy (self : ParkingLot) (occupied : Z) : ParkingLot :=
  mk_ParkingLot (_lot_id self) (_name self) (_total_spaces self)
    (Z.max 0 (Z.min occupied (_total_spaces self)))
    (_permit_type self) (_drive_time self).

Definition can_user_park (self : ParkingLot) (user_type : UserType) : bool :=
  if (_permit_type self =? "Open")%string then true
  else if (_permit_type self =? "Both")%string then
    UserType_in user_type [STUDENT; STAFF]
  else if (_permit_type self =? "Student")%string then
    UserType_eqb user_type STUDENT
  else if (_permit_type self =? "Staff")%string then
    UserType_eqb user_type STAFF
  else false.

(** [User.get_permitted_lots] *)
Definition get_permitted_lots (user_type : UserType) (all_lots : list ParkingLot)
    : list ParkingLot :=
  List.filter (fun lot => can_user_park lot user_type) all_lots.

Record ParkingSystem : Type := mk_ParkingSystem {
  _lots : list ParkingLot;
  _server_connected : bool
}.

Definition _initialize_lots : list ParkingLot :=
  [ new_ParkingLot "17" "Lot 17" 35 "Student" 2;
    new_ParkingLot "18" "Lot 18" 45 "Staff" 1;
    new_ParkingLot "19" "Lot 19" 60 "Both" 2;
    new_ParkingLot "14" "Lot 14" 50 "Open" 3 ].

(** [ParkingSystem.__init__] on the first construction. *)
Definition new_ParkingSystem : ParkingSystem :=
  mk_ParkingSystem _initialize_lots false.

Definition get_all_lots (self : ParkingSystem) : list ParkingLot := _lots self.

Fixpoint lot_by_id (lots : list ParkingLot) (lot_id : string) : option ParkingLot :=
  match lots with
  | [] => None
  | lot :: rest =>
      if (_lot_id lot =? lot_id)%string then Some lot else lot_by_id rest lot_id
  end.

Definition get_lot_by_id (self : ParkingSystem) (lot_id : string) : option ParkingLot :=
  lot_by_id (_lots self) lot_id.

(** [get_lot_by_id] hands out a reference into [_lots]; calling
    [update_occupancy] on it changes that element of the list in place. *)
Fixpoint update_by_id (lots : list ParkingLot) (lot_id : string) (occupied : Z)
    : list ParkingLot :=
  match lots with
  | [] => []
  | lot :: rest =>
      if (_lot_id lot =? lot_id)%string then update_occupancy lot occupied :: rest
      else lot :: update_by_id rest lot_id occupied
  end.

Definition is_server_connected (self : ParkingSystem) : bool :=
  _server_connected self.

Definition get_recommended_lots (self : ParkingSystem) (user_type : UserType)
    : list ParkingLot :=
  List.filter (fun lot => can_user_park lot user_type) (_lots self).

(** One element of the JSON array answered by [GET /api/lots], seen through
    the two keys [refresh_data] reads; [None] is a missing key. *)
Record lot_data : Type := mk_lot_data {
  ld_lot_id : option string;
  ld_occupied_spaces : option Z
}.

(** What [requests.get] and [response.json()] deliver: the call raises
    (timeout, refused connection), or a response with a status code whose
    body decodes to a list of entries or fails to decode. *)
Inductive fetch : Type :=
| RequestRaised
| Response (status_code : Z) (json : option (list lot_data)).

(** The [for lot_data in lots_data] loop of the [try] block; the boolean is
    [true] when the loop ran to its end and [false] when it raised, with the
    lots as they were at that moment. *)
Fixpoint apply_lots_data (lots : list ParkingLot) (lots_data : list lot_data)
    : list ParkingLot * bool :=
  match lots_data with
  | [] => (lots, true)
  | d :: rest =>
      match ld_lot_id d with
      | None => (lots, false)
      | Some lot_id =>
          match lot_by_id lots lot_id with
          | None => apply_lots_data lots rest
          | Some _ =>
              match ld_occupied_spaces d with
              | None => (lots, false)
              | Some occupied =>
                  apply_lots_data (update_by_id lots lot_id occupied) rest
              end
          end
      end
  end.

Section Random.

(** [random.randint a b] as a draw from a generator state. *)
Context {rng : Type} (randint : Z -> Z -> rng -> Z * rng).

(** The [for lot in self._lots] loop of the [except] block. *)
Fixpoint simulate (lots : list ParkingLot) (g : rng) : list ParkingLot * rng :=
  match lots with
  | [] => ([], g)
  | lot :: rest =>
      let '(occupied, g1) :=
        if (_lot_id lot =? "17")%string then randint 28 35 g
        else if (_lot_id lot =? "18")%string then randint 40 45 g
        else if (_lot_id lot =? "19")%string then randint 45 60 g
        else randint 15 40 g in
      let '(rest', g2) := simulate rest g1 in
      (update_occupancy lot occupied :: rest', g2)
  end.

Definition simulated (self : ParkingSystem) (g : rng)
    : option bool * ParkingSystem * rng :=
  let '(lots, g') := simulate (_lots self) g in
  (Some false, mk_ParkingSystem lots false, g').

(** [refresh_data]; the result is [Some True], [Some False], or [None] when
    the function ends without a [return]. *)
Definition refresh_data (self : ParkingSystem) (f : fetch) (g : rng)
    : option bool * ParkingSystem * rng :=
  match f with
  | RequestRaised => simulated self g
  | Response status_code json =>
      if status_code =? 200 then
        match json with
        | None => simulated self g
        | Some lots_data =>
            match apply_lots_data (_lots self) lots_data with
            | (lots, true) => (Some true, mk_ParkingSystem lots true, g)
            | (lots, false) =>
                simulated (mk_ParkingSystem lots (_server_connected self)) g
            end
        end
      else (None, self, g)
  end.

(** [check_server_connection] *)
Definition check_server_connection (self : ParkingSystem) (f : fetch)
    : bool * ParkingSystem :=
  match f with
  | RequestRaised => (false, mk_ParkingSystem (_lots self) false)
  | Response status_code _ =>
      (status_code =? 200, mk_ParkingSystem (_lots self) (status_code =? 200))
  end.

End Random.

(** *** Vocabulary of the statements about the client *)

(** The classifier as the specification words it, on exact ratios:
    [ratio = available / C]; [ratio >= 3/10] is [3 * C <= 10 * available]. *)
Definition classify_exact (occupied capacity : Z) : ParkingStatus :=
  let available := capacity - occupied in
  if 3 * capacity <=? 10 * available then AVAILABLE
  else if 0 <? available then LIMITED
  else FULL.

(** The access policy table of the specification. *)
Inductive PermitClass : Type := Open | StudentOrStaff | StudentOnly | StaffOnly.

(** The permit strings the code uses for the four classes. *)
Definition permit_string (p : PermitClass) : string :=
  match p with
  | Open => "Open"
  | StudentOrStaff => "Both"
  | StudentOnly => "Student"
  | StaffOnly => "Staff"
  end.

Definition canUse (p : PermitClass) (r : UserType) : bool :=
  match p, r with
  | Open, _ => true
  | StudentOrStaff, STUDENT => true
  | StudentOrStaff, STAFF => true
  | StudentOrStaff, VISITOR => false
  | StudentOnly, STUDENT => true
  | StudentOnly, _ => false
  | StaffOnly, STAFF => true
  | StaffOnly, _ => false
  end.

(** The range [refresh_data] draws a lot's synthetic count from. *)
Definition synthetic_range (lot_id : string) : Z * Z :=
  if (lot_id =? "17")%string then (28, 35)
  else if (lot_id =? "18")%string then (40, 45)
  else if (lot_id =? "19")%string then (45, 60)
  else (15, 40).

(** The lots carry the ids and capacities of the catalog, in its order. *)
Definition catalog_shaped (lots : list ParkingLot) : Prop :=
  map (fun lot => (_lot_id lot, _total_spaces lot)) lots
  = [("17", 35); ("18", 45); ("19", 60); ("14", 50)].

(** *** Further methods and vocabulary of the client *)

Definition ParkingStatus_eqb (a b : ParkingStatus) : bool :=
  match a, b with
  | AVAILABLE, AVAILABLE | LIMITED, LIMITED | FULL, FULL => true
  | _, _ => false
  end.

(** [get_status_color] *)
Definition get_status_color (self : ParkingLot) : outcome string :=
  match get_status self with
  | Raise e => Raise e
  | Ret status =>
      if ParkingStatus_eqb status AVAILABLE then Ret "#4CAF50"
      else if ParkingStatus_eqb status LIMITED then Ret "#FFA726"
      else Ret "#EF5350"
  end.

(** The fields of a lot that are set at construction. *)
Definition fixed (lot : ParkingLot) : string * string * Z * string * Z :=
  (_lot_id lot, _name lot, _total_spaces lot, _permit_type lot, _drive_time lot).

Definition in_bounds (lot : ParkingLot) : Prop :=
  0 <= _occupied_spaces lot <= _total_spaces lot.

(** An entry of the server's answer that carries both keys. *)
Definition complete (d : lot_data) : Prop :=
  is_Some (ld_lot_id d) /\ is_Some (ld_occupied_spaces d).

(** The count the last entry for [lot_id] reports, if there is one. *)
Fixpoint last_reported (lot_id : string) (lots_data : list lot_data) : option Z :=
  match lots_data with
  | [] => None
  | d :: rest =>
      match last_reported lot_id rest with
      | Some n => Some n
      | None =>
          match ld_lot_id d with
          | Some k => if (k =? lot_id)%string then ld_occupied_spaces d else None
          | None => None
          end
      end
  end.

(** A lot after a fetch whose last entry for it, if any, is [reported]. *)
Definition mirrored (lots_data : list lot_data) (lot : ParkingLot) : ParkingLot :=
  match last_reported (_lot_id lot) lots_data with
  | Some n => update_occupancy lot n
  | None => lot
  end.

End Client.

(** ** The server: [parking_server.py] *)

Module Server.

(** One value of the [PARKING_LOTS] dictionary. *)
Record lot : Type := mk_lot {
  lot_id : string;
  name : string;
  total_spaces : Z;
  permit_type : string;
  drive_time : Z;
  walk_time : Z;
  spaces : list bool  (* false = empty, true = occupied *)
}.

(** The dictionary itself, in insertion order. *)
Definition store : Type := list (string * lot).

Definition catalog : store :=
  [ ("17", mk_lot "17" "Lot 17" 35 "Student" 2 4 (replicate 35 false));
    ("18", mk_lot "18" "Lot 18" 45 "Staff" 1 3 (replicate 45 false));
    ("19", mk_lot "19" "Lot 19" 60 "Both" 2 5 (replicate 60 false));
    ("14", mk_lot "14" "Lot 14" 50 "Open" 3 7 (replicate 50 false)) ].

(** The process state: the module global and the contents of [DATA_FILE]
    ([None] while the file does not exist). *)
Record state : Type := mk_state {
  PARKING_LOTS : store;
  DATA_FILE : option store
}.

Definition startup : state := mk_state catalog None.

Fixpoint store_get (k : string) (s : store) : option lot :=
  match s with
  | [] => None
  | (k', v) :: rest => if (k' =? k)%string then Some v else store_get k rest
  end.

(** In-place change of the value stored under [k]. *)
Fixpoint store_alter (f : lot -> lot) (k : string) (s : store) : store :=
  match s with
  | [] => []
  | (k', v) :: rest =>
      if (k' =? k)%string then (k', f v) :: rest
      else (k', v) :: store_alter f k rest
  end.

Definition with_spaces (sp : list bool) (l : lot) : lot :=
  mk_lot (lot_id l) (name l) (total_spaces l) (permit_type l)
         (drive_time l) (walk_time l) sp.

(** Handlers are computations over the process state that return or raise. *)
Definition M (A : Type) : Type := state -> outcome A * state.

Definition ret {A} (a : A) : M A := fun st => (Ret a, st).
Definition raise {A} (e : exn) : M A := fun st => (Raise e, st).
Definition bind {A B} (m : M A) (k : A -> M B) : M B :=
  fun st =>
    match m st with
    | (Ret a, st') => k a st'
    | (Raise e, st') => (Raise e, st')
    end.

Notation "'let*' x ':=' m 'in' k" := (bind m (fun x => k))
  (at level 10, x name, m at level 100, k at level 200).

(** [PARKING_LOTS[lot_id]] *)
Definition getitem (lot_id : string) : M lot :=
  fun st =>
    match store_get lot_id (PARKING_LOTS st) with
    | Some l => (Ret l, st)
    | None => (Raise KeyError, st)
    end.

(** [lot_id not in PARKING_LOTS] *)
Definition not_in (lot_id : string) : M bool :=
  fun st =>
    (Ret (match store_get lot_id (PARKING_LOTS st) with
          | Some _ => false
          | None => true
          end), st).

(** [lot["spaces"] = sp] on the lot stored under [lot_id]. *)
Definition set_spaces (lot_id : string) (sp : list bool) : M unit :=
  fun st =>
    (Ret tt, mk_state (store_alter (with_spaces sp) lot_id (PARKING_LOTS st))
                      (DATA_FILE st)).

(** [lot["spaces"][i]] for [0 <= i]. *)
Definition get_space (lot_id : string) (i : nat) : M bool :=
  let* l := getitem lot_id in
  match spaces l !! i with
  | Some b => ret b
  | None => raise IndexError
  end.

(** [lot["spaces"][i] = v] for [0 <= i]. *)
Definition set_space (lot_id : string) (i : nat) (v : bool) : M unit :=
  let* l := getitem lot_id in
  if (i <? length (spaces l))%nat then set_spaces lot_id (<[i := v]> (spaces l))
  else raise IndexError.

(** [save_data]: the whole dictionary is dumped to [DATA_FILE]; [fs_ok]
    tells whether the file can be opened for writing.  When it cannot,
    [open] raises before anything is written.  A write that breaks off
    after the file was opened, and leaves it cut short, is not among the
    cases: the statements about a failed write speak of the handler's
    outcome and of memory, not of the file. *)
Definition save_data (fs_ok : bool) : M unit :=
  fun st =>
    if fs_ok then (Ret tt, mk_state (PARKING_LOTS st) (Some (PARKING_LOTS st)))
    else (Raise OSError, st).

(** [load_data] at process start.  A file that exists but cannot be parsed,
    on which the code keeps the dictionary it has, is not among the states
    of [DATA_FILE]. *)
Definition load_data (st : state) : state :=
  match DATA_FILE st with
  | Some s => mk_state s (DATA_FILE st)
  | None => st
  end.

(** [sum] over a list of booleans. *)
Definition sum (l : list bool) : Z :=
  fold_left (fun acc (b : bool) => acc + Z.b2z b) l 0.

Definition get_occupied_count (lot_id : string) : M Z :=
  let* l := getitem lot_id in ret (sum (spaces l)).

Definition get_available_count (lot_id : string) : M Z :=
  let* l := getitem lot_id in
  let total := total_spaces l in
  let* occupied := get_occupied_count lot_id in
  ret (total - occupied).

(** JSON bodies of the responses. *)
Record lot_summary : Type := mk_lot_summary {
  s_lot_id : string;
  s_name : string;
  s_total_spaces : Z;
  s_occupied_spaces : Z;
  s_available_spaces : Z;
  s_permit_type : string;
  s_drive_time : Z;
  s_walk_time : Z;
  s_last_update : string
}.

Inductive body : Type :=
| Error (error : string)
| Lots (lots : list lot_summary)
| Lot (summary : lot_summary) (lot_spaces : list bool)
| Toggled (t_lot_id : string) (space_index : Z) (occupied : bool)
          (occupied_count available_count : Z)
| Message (m_lot_id : string) (message : string)
| Randomized (r_lot_id : string) (occupied_count available_count : Z).

Record response : Type := mk_response { status : Z; json : body }.

(** [jsonify(...)] and [jsonify(...), code] *)
Definition jsonify (b : body) : response := mk_response 200 b.
Definition jsonify_code (b : body) (code : Z) : response := mk_response code b.

Definition summarize (now : string) (k : string) (l : lot) : M lot_summary :=
  let* occupied := get_occupied_count k in
  let* available := get_available_count k in
  ret (mk_lot_summary (lot_id l) (name l) (total_spaces l) occupied available
         (permit_type l) (drive_time l) (walk_time l) now).

Fixpoint summarize_items (now : string) (items : store) : M (list lot_summary) :=
  match items with
  | [] => ret []
  | (k, l) :: rest =>
      let* x := summarize now k l in
      let* xs := summarize_items now rest in
      ret (x :: xs)
  end.

(** [GET /api/lots] *)
Definition get_all_lots (now : string) : M response :=
  fun st =>
    (let* lots_data := summarize_items now (PARKING_LOTS st) in
     ret (jsonify (Lots lots_data))) st.

(** [GET /api/lot/<lot_id>] *)
Definition get_lot (now : string) (k : string) : M response :=
  let* missing := not_in k in
  if missing : bool then ret (jsonify_code (Error "Lot not found") 404)
  else
    let* l := getitem k in
    let* s := summarize now k l in
    ret (jsonify (Lot s (spaces l))).

(** [POST /api/lot/<lot_id>/toggle/<int:space_index>] *)
Definition toggle_space (fs_ok : bool) (k : string) (space_index : Z) : M response :=
  let* missing := not_in k in
  if missing : bool then ret (jsonify_code (Error "Lot not found") 404)
  else
    let* l := getitem k in
    if (space_index <? 0) || (total_spaces l <=? space_index) then
      ret (jsonify_code (Error "Invalid space index") 400)
    else
      let i := Z.to_nat space_index in
      let* b := get_space k i in
      let* _ := set_space k i (negb b) in
      let* _ := save_data fs_ok in
      let* occupied := get_space k i in
      let* occupied_count := get_occupied_count k in
      let* available_count := get_available_count k in
      ret (jsonify (Toggled k space_index occupied occupied_count available_count)).

(** [POST /api/lot/<lot_id>/reset] *)
Definition reset_lot (fs_ok : bool) (k : string) : M response :=
  let* missing := not_in k in
  if missing : bool then ret (jsonify_code (Error "Lot not found") 404)
  else
    let* l := getitem k in
    let* _ := set_spaces k (replicate (Z.to_nat (total_spaces l)) false) in
    let* _ := save_data fs_ok in
    ret (jsonify (Message k "All spaces cleared")).

(** [POST /api/lot/<lot_id>/fill] *)
Definition fill_lot (fs_ok : bool) (k : string) : M response :=
  let* missing := not_in k in
  if missing : bool then ret (jsonify_code (Error "Lot not found") 404)
  else
    let* l := getitem k in
    let* _ := set_spaces k (replicate (Z.to_nat (total_spaces l)) true) in
    let* _ := save_data fs_ok in
    ret (jsonify (Message k "All spaces filled")).

(** The loop [for idx in occupied_indices: lot["spaces"][idx] = True]. *)
Fixpoint mark_occupied (k : string) (occupied_indices : list nat) : M unit :=
  match occupied_indices with
  | [] => ret tt
  | idx :: rest => let* _ := set_space k idx true in mark_occupied k rest
  end.

(** *** The route of [toggle_space] *)

(** [<int:space_index>] is the router's integer converter, which is unsigned
    unless told otherwise: it matches a non-empty run of decimal digits and
    nothing else, in particular no sign, and hands the handler their value. *)
Definition int_converter (segment : string) : option Z :=
  match DecimalString.NilZero.uint_of_string segment with
  | Some d => Some (Z.of_uint d)
  | None => None
  end.

(** The decimal text of an index as a request carries it in its path. *)
Definition index_segment (i : Z) : string :=
  DecimalString.NilZero.string_of_int (Z.to_int i).

(** What the application does with a request: no rule matches its path and
    the router answers 404 by itself, or a handler is called. *)
Inductive routed (A : Type) : Type :=
| NoRoute
| Routed (a : A).
Arguments NoRoute {A}.
Arguments Routed {A} a.

(** [POST /api/lot/<lot_id>/toggle/<int:space_index>]: no other rule of the
    application matches a path of this shape, so a last segment that does
    not convert leaves the request without a route. *)
Definition toggle_space_route (fs_ok : bool) (k segment : string) (st : state)
    : routed (outcome response) * state :=
  match int_converter segment with
  | None => (NoRoute, st)
  | Some space_index =>
      let '(r, st') := toggle_space fs_ok k space_index st in (Routed r, st')
  end.

(** The status code of the answer, when there is an answer. *)
Definition http_status (a : routed (outcome response)) : option Z :=
  match a with
  | NoRoute => Some 404
  | Routed (Ret r) => Some (status r)
  | Routed (Raise _) => None
  end.

(** *** Vocabulary of the statements about the server *)

Definition not_found : response := jsonify_code (Error "Lot not found") 404.
Definition invalid_index : response := jsonify_code (Error "Invalid space index") 400.

(** The dictionary after [lot["spaces"] = sp] on the lot under [k]. *)
Definition spaces_set (k : string) (sp : list bool) (st : state) : store :=
  store_alter (with_spaces sp) k (PARKING_LOTS st).

Definition mark (sp : list bool) (idxs : list nat) : list bool :=
  foldl (fun acc i => <[i := true]> acc) sp idxs.

Definition meta (l : lot) : string * string * Z * string * Z * Z :=
  (lot_id l, name l, total_spaces l, permit_type l, drive_time l, walk_time l).

Definition store_meta (s : store) : list (string * (string * string * Z * string * Z * Z)) :=
  map (fun kv => (fst kv, meta (snd kv))) s.

(** Same keys in the same order, same fixed fields under every key, and
    the lots under the other keys untouched. *)
Definition frame (k : string) (s s' : store) : Prop :=
  store_meta s' = store_meta s /\
  forall k', k' <> k -> store_get k' s' = store_get k' s.

(** The range [randomize_lot] draws the occupied count of a lot from. *)
Definition occupancy_range (k : string) : Z * Z :=
  if (k =? "17")%string then (28, 35)
  else if (k =? "18")%string then (40, 45)
  else if (k =? "19")%string then (45, 60)
  else (15, 40).

Definition wf_lot (l : lot) : Prop := Z.of_nat (length (spaces l)) = total_spaces l.

Definition wf_store (s : store) : Prop := Forall (fun kv => wf_lot (snd kv)) s.

Section Random.

(** [random.randint a b] and [random.sample (range n) k] as draws from a
    generator state; [sample] is consulted only for [0 <= k <= len(range n)],
    where the library does not raise. *)
Context {rng : Type}
  (randint : Z -> Z -> rng -> Z * rng)
  (sample : Z -> Z -> rng -> list nat * rng).

(** [POST /api/lot/<lot_id>/random] *)
Definition randomize_lot (fs_ok : bool) (k : string) (g : rng) (st : state)
    : outcome response * state * rng :=
  match store_get k (PARKING_LOTS st) with
  | None => (Ret (jsonify_code (Error "Lot not found") 404), st, g)
  | Some l =>
      let '(occupied_count, g1) :=
        if (k =? "17")%string then randint 28 35 g
        else if (k =? "18")%string then randint 40 45 g
        else if (k =? "19")%string then randint 45 60 g
        else randint 15 40 g in
      let '(_, st1) :=
        set_spaces k (replicate (Z.to_nat (total_spaces l)) false) st in
      if (occupied_count <? 0) || (Z.max 0 (total_spaces l) <? occupied_count)
      then (Raise ValueError, st1, g1)
      else
        let '(occupied_indices, g2) := sample (total_spaces l) occupied_count g1 in
        let '(r, st2) :=
          (let* _ := mark_occupied k occupied_indices in
           let* _ := save_data fs_ok in
           ret (jsonify (Randomized k occupied_count
                           (total_spaces l - occupied_count)))) st1 in
        (r, st2, g2)
  end.

(** The count and the positions [randomize_lot] draws for the lot under [k]. *)
Definition drawn_count (k : string) (g : rng) : Z * rng :=
  randint (fst (occupancy_range k)) (snd (occupancy_range k)) g.

Definition drawn_indices (k : string) (l : lot) (g : rng) : list nat :=
  fst (sample (total_spaces l) (fst (drawn_count k g)) (snd (drawn_count k g))).

End Random.

(** A handler writes through when, whenever it answers 200 on a working
    disk, [DATA_FILE] then holds the whole dictionary as it is in memory,
    and on a failing disk the same in-memory change is made and [OSError]
    leaves the handler in place of a response. *)
Definition writes_through (op : bool -> outcome response * state) : Prop :=
  forall r, fst (op true) = Ret r -> status r = 200 ->
    DATA_FILE (snd (op true)) = Some (PARKING_LOTS (snd (op true))) /\
    fst (op false) = Raise OSError /\
    PARKING_LOTS (snd (op false)) = PARKING_LOTS (snd (op true)).

(** *** Further vocabulary of the server *)

(** The entry [get_all_lots] and [get_lot] build for a lot. *)
Definition summary_of (now : string) (l : lot) : lot_summary :=
  mk_lot_summary (lot_id l) (name l) (total_spaces l) (sum (spaces l))
    (total_spaces l - sum (spaces l)) (permit_type l) (drive_time l)
    (walk_time l) now.

(** An entry of an answer without its [last_update], and what it is for a
    lot: the lot's fields, its occupied spaces and the rest of its capacity. *)
Definition entry_fields (s : lot_summary)
    : string * string * Z * Z * Z * string * Z * Z :=
  (s_lot_id s, s_name s, s_total_spaces s, s_occupied_spaces s,
   s_available_spaces s, s_permit_type s, s_drive_time s, s_walk_time s).

Definition lot_fields (l : lot) : string * string * Z * Z * Z * string * Z * Z :=
  (lot_id l, name l, total_spaces l, sum (spaces l),
   total_spaces l - sum (spaces l), permit_type l, drive_time l, walk_time l).

(** A new process: the module is loaded with the catalog, then the main
    block calls [load_data] on the file the previous process left. *)
Definition restart (st : state) : state :=
  load_data (mk_state catalog (DATA_FILE st)).

End Server.

(** ** The body of [GET /api/lots] as the client reads it *)

(** [refresh_data] reads the keys ['lot_id'] and ['occupied_spaces'] of each
    entry [get_all_lots] puts in its answer. *)
Definition as_lot_data (s : Server.lot_summary) : Client.lot_data :=
  Client.mk_lot_data (Some (Server.s_lot_id s)) (Some (Server.s_occupied_spaces s)).

(** * Properties *)

(** ** Float division and comparison *)

Example lit_0_3_is_nearest : Float.true_divide 3 10 = Ret Float.lit_0_3.
Proof. vm_compute. reflexivity. Qed.

Example one_third :
  Float.true_divide 1 3 = Ret (Float.mk_float 6004799503160661 (-54)).
Proof. vm_compute. reflexivity. Qed.

Example tiny_underflows :
  Float.true_divide 1 (2 ^ 1080) = Ret (Float.mk_float 0 (-1074)).
Proof. vm_compute. reflexivity. Qed.

Section FloatFacts.

Import Float.

(** Evaluate the closed powers of two in the goal. *)
Ltac eval_pow2 :=
  repeat match goal with
         | |- context [2 ^ ?e] =>
             let v := eval vm_compute in (2 ^ e) in change (2 ^ e) with v
         end.

(** Rounding moves a quotient to one of its two neighbouring integers. *)
Lemma round_half_even_between n d :
  0 < d -> n / d <= round_half_even n d <= n / d + 1.
Proof.
  intros Hd. unfold round_half_even.
  repeat match goal with |- context [if ?c then _ else _] => destruct c end; lia.
Qed.

Lemma round_half_even_ge n d k :
  0 < d -> k * d <= n -> k <= round_half_even n d.
Proof.
  intros Hd Hk. pose proof (round_half_even_between n d Hd) as [Hlo _].
  assert (k <= n / d) by (apply Z.div_le_lower_bound; lia). lia.
Qed.

Lemma round_half_even_le n d k :
  0 < d -> n < k * d -> round_half_even n d <= k.
Proof.
  intros Hd Hk. pose proof (round_half_even_between n d Hd) as [_ Hhi].
  assert (n / d < k) by (apply Z.div_lt_upper_bound; lia). lia.
Qed.

(** A quotient below [k - 1/2] rounds below [k]. *)
Lemma round_half_even_lt n d k :
  0 < d -> 2 * n < (2 * k - 1) * d -> round_half_even n d < k.
Proof.
  intros Hd Hk. unfold round_half_even.
  pose proof (Z.div_mod n d ltac:(lia)) as Hdm.
  pose proof (Z.mod_pos_bound n d Hd) as Hr.
  assert (Hq : n / d < k) by (apply Z.div_lt_upper_bound; nia).
  destruct (Z.ltb_spec (2 * (n mod d)) d) as [H1|H1]; [lia|].
  assert (n / d < k - 1) by nia.
  repeat match goal with |- context [if ?c then _ else _] => destruct c end; lia.
Qed.

(** For [n <= d] the exponent [L] found is the one with
    [2 ^ L <= n / d < 2 ^ (L + 1)]. *)
Lemma floor_log2_quot_spec n d :
  0 < n <= d ->
  floor_log2_quot n d <= 0 /\
  d <= n * 2 ^ (- floor_log2_quot n d) < 2 * d.
Proof.
  intros [Hn Hnd]. unfold floor_log2_quot.
  pose proof (Z.log2_le_mono n d Hnd) as Hmono.
  pose proof (Z.log2_nonneg n) as Hln.
  destruct (Z.log2_spec n Hn) as [Hn1 Hn2].
  destruct (Z.log2_spec d ltac:(lia)) as [Hd1 Hd2].
  set (a := Z.log2 n) in *. set (b := Z.log2 d) in *.
  rewrite (Z.max_r 0 (- (a - b))) by lia.
  rewrite (Z.max_l 0 (a - b)) by lia.
  replace (- (a - b)) with (b - a) by lia.
  change (2 ^ 0) with 1. rewrite Z.mul_1_r.
  assert (HB : 2 ^ b = 2 ^ a * 2 ^ (b - a)).
  { rewrite <- Z.pow_add_r by lia. f_equal. lia. }
  assert (HP : 0 < 2 ^ (b - a)) by (apply Z.pow_pos_nonneg; lia).
  rewrite !Z.pow_succ_r in * by lia.
  destruct (Z.ltb_spec (n * 2 ^ (b - a)) d) as [Hlt|Hge].
  - split; [lia|].
    replace (- (a - b - 1)) with (Z.succ (b - a)) by lia.
    rewrite Z.pow_succ_r by lia. nia.
  - split; [lia|].
    replace (- (a - b)) with (b - a) by lia. nia.
Qed.

(** Up to a denominator of [2 ^ 51] the quotient of [0 < n <= d] neither
    overflows nor underflows, and comparing it with the literal [0.3] and
    with [0] gives what the exact ratio gives. *)
Lemma true_divide_ratio n d :
  0 < n <= d -> d <= 2 ^ 51 ->
  exists f, true_divide n d = Ret f /\
            geb f lit_0_3 = (3 * d <=? 10 * n) /\
            gtb f (of_int 0) = true.
Proof.
  intros Hnd Hd. unfold true_divide.
  destruct (Z.eqb_spec d 0) as [|_]; [lia|].
  destruct (Z.eqb_spec n 0) as [|_]; [lia|].
  rewrite (Z.abs_eq n), (Z.abs_eq d) by lia.
  rewrite (Z.sgn_pos n), (Z.sgn_pos d) by lia.
  destruct (floor_log2_quot_spec n d Hnd) as [HL0 HX].
  generalize dependent (floor_log2_quot n d). intros L HL0 HX.
  assert (HL : -51 <= L).
  { destruct (Z.le_gt_cases (-51) L) as [|Hlt]; [assumption|exfalso].
    assert (2 ^ 52 <= 2 ^ (- L)) by (apply Z.pow_le_mono_r; lia).
    change (2 ^ 51) with 2251799813685248 in Hd.
    change (2 ^ 52) with 4503599627370496 in *. nia. }
  rewrite (Z.max_l (L - 52) (-1074)) by lia.
  rewrite (Z.max_r 0 (- (L - 52))) by lia.
  rewrite (Z.max_l 0 (L - 52)) by lia.
  change (2 ^ 0) with 1. rewrite !Z.mul_1_r.
  replace (- (L - 52)) with (52 + - L) by lia.
  rewrite Z.pow_add_r by lia.
  replace (n * (2 ^ 52 * 2 ^ (- L))) with (2 ^ 52 * (n * 2 ^ (- L))) by ring.
  remember (n * 2 ^ (- L)) as X eqn:HXdef.
  set (m := round_half_even (2 ^ 52 * X) d).
  assert (Hm1 : 2 ^ 52 <= m).
  { apply round_half_even_ge; [lia|]. lia. }
  assert (Hm2 : m <= 2 ^ 53).
  { apply round_half_even_le; [lia|].
    change (2 ^ 52) with 4503599627370496. change (2 ^ 53) with 9007199254740992. lia. }
  destruct (Z.leb_spec (2 ^ 1024) m) as [Hov|_].
  { assert (2 ^ 53 < 2 ^ 1024) by (apply Z.pow_lt_mono_r; lia). lia. }
  eexists. split; [reflexivity|].
  rewrite !Z.mul_1_l.
  unfold geb, gtb, align, lit_0_3, of_int; cbn [mant expo fst snd].
  split.
  - assert (Hcases : L = 0 \/ L = -1 \/ L = -2 \/ L <= -3) by lia.
    destruct Hcases as [-> | [-> | [-> | HL3]]].
    + change (2 ^ (- 0)) with 1 in HXdef.
      destruct (Z.leb_spec (3 * d) (10 * n)); [|lia].
      apply Z.leb_le. eval_pow2. lia.
    + change (2 ^ (- -1)) with 2 in HXdef.
      destruct (Z.leb_spec (3 * d) (10 * n)); [|lia].
      apply Z.leb_le. eval_pow2. lia.
    + change (2 ^ (- -2)) with 4 in HXdef.
      eval_pow2. rewrite !Z.mul_1_r.
      destruct (Z.leb_spec (3 * d) (10 * n)) as [Hge|Hlt].
      * apply Z.leb_le. apply round_half_even_ge; [lia|].
        change (2 ^ 52) with 4503599627370496. lia.
      * apply Z.leb_gt. apply round_half_even_lt; [lia|].
        change (2 ^ 52) with 4503599627370496.
        change (2 ^ 51) with 2251799813685248 in Hd. lia.
    + rewrite (Z.min_l (L - 52) (-54)) by lia.
      replace (L - 52 - (L - 52)) with 0 by lia.
      change (2 ^ 0) with 1. rewrite Z.mul_1_r.
      assert (2 ^ 1 <= 2 ^ (-54 - (L - 52))) by (apply Z.pow_le_mono_r; lia).
      assert (2 ^ 3 <= 2 ^ (- L)) by (apply Z.pow_le_mono_r; lia).
      change (2 ^ 1) with 2 in *. change (2 ^ 3) with 8 in *.
      change (2 ^ 53) with 9007199254740992 in Hm2.
      destruct (Z.leb_spec (3 * d) (10 * n)) as [Hge|Hlt].
      * exfalso. nia.
      * apply Z.leb_gt. lia.
  - rewrite (Z.min_l (L - 52) 0) by lia.
    replace (L - 52 - (L - 52)) with 0 by lia.
    change (2 ^ 0) with 1. rewrite Z.mul_1_r, Z.mul_0_l.
    apply Z.ltb_lt. lia.
Qed.

End FloatFacts.

(** ** The client's occupancy store, classifier and access policy *)

Module ClientFacts.

Import Client.

(** C1. For a lot of capacity [C > 0] and any integer [n],
    [update_occupancy] stores [n] clamped into [[0, C]] and cannot fail:
    afterwards [0 <= occupied <= C], the available count is
    [C - occupied] and lies in [[0, C]]; [n = -10] leaves [C] spaces
    available and [n = C + 50] leaves none. *)
Theorem update_occupancy_clamps (lot : ParkingLot) (n : Z) :
  0 < _total_spaces lot ->
  let C := _total_spaces lot in
  let lot' := update_occupancy lot n in
  _total_spaces lot' = C /\
  _occupied_spaces lot' = (if n <? 0 then 0 else if C <? n then C else n) /\
  0 <= _occupied_spaces lot' <= C /\
  available_spaces lot' = C - _occupied_spaces lot' /\
  0 <= available_spaces lot' <= C /\
  available_spaces (update_occupancy lot (-10)) = C /\
  available_spaces (update_occupancy lot (C + 50)) = 0.
Proof.
  intros HC C lot'. subst C lot'.
  unfold available_spaces, update_occupancy; cbn [_total_spaces _occupied_spaces].
  destruct (Z.ltb_spec n 0), (Z.ltb_spec (_total_spaces lot) n); lia.
Qed.

Lemma update_occupancy_clamps_witness :
  let lot := update_occupancy (new_ParkingLot "17" "Lot 17" 35 "Student" 2) 100 in
  _occupied_spaces lot = 35 /\ available_spaces lot = 0.
Proof.
  pose proof (update_occupancy_clamps
                (new_ParkingLot "17" "Lot 17" 35 "Student" 2) 100) as H.
  cbn [_total_spaces new_ParkingLot] in H.
  specialize (H ltac:(lia)). cbv zeta in H.
  destruct H as (_ & Hocc & _ & Hav & _).
  split.
  - rewrite Hocc. reflexivity.
  - rewrite Hav, Hocc. reflexivity.
Defined.

Lemma get_status_zero (lot : ParkingLot) :
  _total_spaces lot <> 0 -> available_spaces lot = 0 -> get_status lot = Ret FULL.
Proof.
  intros HC Hav. unfold get_status, Float.true_divide. rewrite Hav.
  destruct (Z.eqb_spec (_total_spaces lot) 0); [contradiction|]. reflexivity.
Qed.

(** C2, as the code has it.  For every capacity [0 < C <= 2^51] and every
    occupied count in [[0, C]], [get_status] returns, and its result is the
    classification of the exact ratio [available / C]: Available iff the
    ratio is at least 3/10, Limited iff it lies strictly between 0 and 3/10,
    Full iff it is 0.  For [C = 35]: 10 occupied is Available, 32 is
    Limited, 35 is Full. *)
Theorem get_status_exact_ratio (lot : ParkingLot) :
  0 < _total_spaces lot <= 2 ^ 51 ->
  0 <= _occupied_spaces lot <= _total_spaces lot ->
  get_status lot = Ret (classify_exact (_occupied_spaces lot) (_total_spaces lot)) /\
  (get_status lot = Ret AVAILABLE <->
     3 * _total_spaces lot <= 10 * available_spaces lot) /\
  (get_status lot = Ret LIMITED <->
     0 < 10 * available_spaces lot < 3 * _total_spaces lot) /\
  (get_status lot = Ret FULL <-> available_spaces lot = 0) /\
  (forall lot', _total_spaces lot' = _total_spaces lot ->
                _occupied_spaces lot' = _occupied_spaces lot ->
                get_status lot' = get_status lot) /\
  (forall id nm permit drive,
     get_status (mk_ParkingLot id nm 35 10 permit drive) = Ret AVAILABLE /\
     get_status (mk_ParkingLot id nm 35 32 permit drive) = Ret LIMITED /\
     get_status (mk_ParkingLot id nm 35 35 permit drive) = Ret FULL).
Proof.
  intros HC Hocc.
  assert (Hmain : get_status lot =
                  Ret (classify_exact (_occupied_spaces lot) (_total_spaces lot))).
  { unfold classify_exact. fold (available_spaces lot).
    destruct (Z.eq_dec (available_spaces lot) 0) as [H0|Hne].
    - rewrite get_status_zero by lia. rewrite H0.
      destruct (Z.leb_spec (3 * _total_spaces lot) (10 * 0)); [lia|]. reflexivity.
    - assert (Hav : 0 < available_spaces lot <= _total_spaces lot)
        by (unfold available_spaces in *; lia).
      destruct (true_divide_ratio _ _ Hav (proj2 HC)) as (f & Hf & Hge & Hgt).
      unfold get_status. rewrite Hf, Hge, Hgt.
      destruct (Z.leb_spec (3 * _total_spaces lot) (10 * available_spaces lot));
        [reflexivity|].
      destruct (Z.ltb_spec 0 (available_spaces lot)); [reflexivity|lia]. }
  assert (Hav0 : 0 <= available_spaces lot) by (unfold available_spaces; lia).
  assert (Hpure : forall lot', _total_spaces lot' = _total_spaces lot ->
                               _occupied_spaces lot' = _occupied_spaces lot ->
                               get_status lot' = get_status lot).
  { intros lot' Ht Ho. unfold get_status, available_spaces.
    rewrite Ht, Ho. reflexivity. }
  assert (Hiff : forall s, get_status lot = Ret s <->
                           classify_exact (_occupied_spaces lot) (_total_spaces lot) = s).
  { intros s. rewrite Hmain. split; [intros [= ->]|intros ->]; reflexivity. }
  split; [exact Hmain|].
  rewrite !Hiff. unfold classify_exact. fold (available_spaces lot).
  split; [|split; [|split; [|split; [exact Hpure|]]]].
  - destruct (Z.leb_spec (3 * _total_spaces lot) (10 * available_spaces lot));
      destruct (Z.ltb_spec 0 (available_spaces lot));
      split; intros; try lia; try congruence.
  - destruct (Z.leb_spec (3 * _total_spaces lot) (10 * available_spaces lot));
      destruct (Z.ltb_spec 0 (available_spaces lot));
      split; intros; try lia; try congruence.
  - destruct (Z.leb_spec (3 * _total_spaces lot) (10 * available_spaces lot));
      destruct (Z.ltb_spec 0 (available_spaces lot));
      split; intros; try lia; try congruence.
  - intros id nm permit drive. repeat split; vm_compute; reflexivity.
Qed.

Lemma get_status_exact_ratio_witness :
  get_status (update_occupancy (new_ParkingLot "17" "Lot 17" 35 "Student" 2) 32)
  = Ret LIMITED.
Proof.
  exact (proj1 (get_status_exact_ratio
    (update_occupancy (new_ParkingLot "17" "Lot 17" 35 "Student" 2) 32)
    ltac:(cbn; lia) ltac:(cbn; lia))).
Defined.

(** C2 as stated fails for very large capacities: with [10^17] spaces of
    which [3 * 10^16 - 1] are free the exact ratio is below 3/10, yet the
    quotient rounds to the float [0.3] and the lot is reported Available. *)
Lemma get_status_rounding_counterexample :
  let lot := mk_ParkingLot "X" "Lot X" (10 ^ 17) (7 * 10 ^ 16 + 1) "Open" 1 in
  0 < _total_spaces lot /\
  0 <= _occupied_spaces lot <= _total_spaces lot /\
  10 * available_spaces lot < 3 * _total_spaces lot /\
  get_status lot = Ret AVAILABLE /\
  get_status lot <> Ret (classify_exact (_occupied_spaces lot) (_total_spaces lot)).
Proof. vm_compute. repeat split; congruence. Qed.

(** C3. [can_user_park] agrees with the access policy table on each of the
    twelve (permit class, requester class) pairs, whatever the other fields
    of the lot; and a Visitor is admitted exactly to the lots whose permit
    string is ["Open"]. *)
Theorem can_user_park_table :
  (forall (p : PermitClass) (r : UserType) id nm total occupied drive,
     can_user_park (mk_ParkingLot id nm total occupied (permit_string p) drive) r
     = canUse p r) /\
  (forall lot : ParkingLot,
     can_user_park lot VISITOR = (_permit_type lot =? "Open")%string).
Proof.
  split.
  - intros p r id nm total occupied drive. destruct p, r; reflexivity.
  - intros lot. unfold can_user_park.
    destruct (_permit_type lot =? "Open")%string; [reflexivity|].
    repeat match goal with |- context [if ?c then _ else _] => destruct c end;
      reflexivity.
Qed.

Lemma filter_sublist {A} (p : A -> bool) (l : list A) :
  sublist (List.filter p l) l.
Proof.
  induction l as [|x l IH]; cbn; [constructor|].
  destruct (p x); constructor; exact IH.
Qed.

(** C5. [get_recommended_lots] returns the lots of the system that the
    requester may use, in the order the system holds them: the result is a
    subsequence of the lot list, it contains exactly the admitted lots, and
    its first element is the first admitted lot.  For the catalog (17, 18,
    19, 14) a Student gets 17, 19, 14, a member of Staff 18, 19, 14 and a
    Visitor 14. *)
Theorem get_recommended_lots_ordered (sys : ParkingSystem) (r : UserType) :
  sublist (get_recommended_lots sys r) (get_all_lots sys) /\
  (forall lot, lot ∈ get_recommended_lots sys r <->
               lot ∈ get_all_lots sys /\ can_user_park lot r = true) /\
  (forall lot1 lot2 i j,
     get_recommended_lots sys r !! i = Some lot1 ->
     get_recommended_lots sys r !! j = Some lot2 -> (i < j)%nat ->
     exists i' j', get_all_lots sys !! i' = Some lot1 /\
                   get_all_lots sys !! j' = Some lot2 /\ (i' < j')%nat) /\
  head (get_recommended_lots sys r) =
    List.find (fun lot => can_user_park lot r) (get_all_lots sys) /\
  map _lot_id (get_all_lots new_ParkingSystem) = ["17"; "18"; "19"; "14"] /\
  map _lot_id (get_recommended_lots new_ParkingSystem STUDENT) = ["17"; "19"; "14"] /\
  map _lot_id (get_recommended_lots new_ParkingSystem STAFF) = ["18"; "19"; "14"] /\
  map _lot_id (get_recommended_lots new_ParkingSystem VISITOR) = ["14"].
Proof.
  unfold get_recommended_lots, get_all_lots.
  split; [apply filter_sublist|].
  split.
  { intros lot. rewrite !list_elem_of_In, filter_In. reflexivity. }
  split.
  { generalize (_lots sys) as l.
    induction l as [|x l IH]; intros lot1 lot2 i j Hi Hj Hij; [discriminate|].
    cbn [List.filter] in Hi, Hj.
    destruct (can_user_park x r).
    - destruct i as [|i], j as [|j]; try lia.
      + cbn in Hi. injection Hi as ->. cbn in Hj.
        assert (Hin : lot2 ∈ List.filter (fun lot => can_user_park lot r) l)
          by (apply list_elem_of_lookup; eauto).
        apply list_elem_of_In, filter_In in Hin. destruct Hin as [Hin _].
        apply list_elem_of_In, list_elem_of_lookup in Hin. destruct Hin as [j' Hj'].
        exists 0%nat, (S j'). repeat split; [assumption|lia].
      + cbn in Hi, Hj.
        destruct (IH lot1 lot2 i j Hi Hj ltac:(lia)) as (i' & j' & H1 & H2 & H3).
        exists (S i'), (S j'). repeat split; [assumption..|lia].
    - destruct (IH lot1 lot2 i j Hi Hj Hij) as (i' & j' & H1 & H2 & H3).
      exists (S i'), (S j'). repeat split; [assumption..|lia]. }
  split.
  { generalize (_lots sys) as l. induction l as [|x l IH]; [reflexivity|].
    cbn. destruct (can_user_park x r); [reflexivity|exact IH]. }
  repeat split; reflexivity.
Qed.

Section Synchronizer.

Context {rng : Type} (randint : Z -> Z -> rng -> Z * rng).
Hypothesis randint_range :
  forall a b g, a <= b -> a <= fst (randint a b g) <= b.

Lemma simulate_draws (lots : list ParkingLot) (g : rng) :
  Forall2 (fun old new =>
             exists n, fst (synthetic_range (_lot_id old)) <= n
                       <= snd (synthetic_range (_lot_id old)) /\
                       new = update_occupancy old n)
          lots (fst (simulate randint lots g)).
Proof.
  revert g. induction lots as [|lot rest IH]; intros g; cbn [simulate].
  - constructor.
  - unfold synthetic_range.
    set (draw := if (_lot_id lot =? "17")%string then randint 28 35 g
                 else if (_lot_id lot =? "18")%string then randint 40 45 g
                 else if (_lot_id lot =? "19")%string then randint 45 60 g
                 else randint 15 40 g).
    assert (Hdraw : fst (synthetic_range (_lot_id lot)) <= fst draw
                    <= snd (synthetic_range (_lot_id lot))).
    { unfold draw, synthetic_range.
      repeat match goal with |- context [if ?c then _ else _] => destruct c end;
        cbn [fst snd]; apply randint_range; lia. }
    destruct draw as [n g1]. specialize (IH g1).
    destruct (simulate randint rest g1) as [rest' g2]. cbn [fst] in *.
    constructor; [|exact IH]. exists n. split; [exact Hdraw|reflexivity].
Qed.

(** When the request raises, or the body of a 200 answer cannot be decoded,
    the client reports [False], is disconnected, and every lot of the
    catalog holds a count from its synthetic range. *)
Lemma refresh_data_fallback (sys : ParkingSystem) (f : fetch) (g : rng) :
  catalog_shaped (_lots sys) ->
  f = RequestRaised \/ f = Response 200 None ->
  let '(result, sys', _) := refresh_data randint sys f g in
  result = Some false /\
  is_server_connected sys' = false /\
  catalog_shaped (_lots sys') /\
  Forall (fun lot => fst (synthetic_range (_lot_id lot)) <= _occupied_spaces lot
                     <= snd (synthetic_range (_lot_id lot))) (_lots sys').
Proof.
  intros Hshape Hf.
  assert (Hrd : refresh_data randint sys f g = simulated randint sys g)
    by (destruct Hf as [-> | ->]; reflexivity).
  rewrite Hrd. unfold simulated.
  pose proof (simulate_draws (_lots sys) g) as Hsim.
  destruct (simulate randint (_lots sys) g) as [lots' g']. cbn [fst] in Hsim.
  split; [reflexivity|]. split; [reflexivity|]. cbn [_lots].
  unfold catalog_shaped in *.
  destruct (_lots sys) as [|l1 [|l2 [|l3 [|l4 [|? ?]]]]]; try discriminate Hshape.
  injection Hshape as H1a H1b H2a H2b H3a H3b H4a H4b.
  repeat match goal with
         | H : Forall2 _ (_ :: _) _ |- _ =>
             apply Forall2_cons_inv_l in H;
             destruct H as (? & ? & (? & ? & ->) & H & ->)
         | H : Forall2 _ [] _ |- _ => apply Forall2_nil_inv_l in H; subst
         end.
  rewrite H1a, H2a, H3a, H4a in *. cbn in *.
  split.
  - cbn. rewrite H1a, H1b, H2a, H2b, H3a, H3b, H4a, H4b. reflexivity.
  - repeat constructor; cbn;
      rewrite ?H1a, ?H1b, ?H2a, ?H2b, ?H3a, ?H3b, ?H4a, ?H4b; cbn; lia.
Qed.

(** When the server answers 200 with one entry per catalog lot, the client
    reports [True], is connected, and every lot holds the reported count. *)
Lemma refresh_data_mirrors (sys : ParkingSystem) (o17 o18 o19 o14 : Z) (g : rng) :
  catalog_shaped (_lots sys) ->
  0 <= o17 <= 35 -> 0 <= o18 <= 45 -> 0 <= o19 <= 60 -> 0 <= o14 <= 50 ->
  let lots_data := [ mk_lot_data (Some "17") (Some o17);
                     mk_lot_data (Some "18") (Some o18);
                     mk_lot_data (Some "19") (Some o19);
                     mk_lot_data (Some "14") (Some o14) ] in
  let '(result, sys', _) := refresh_data randint sys (Response 200 (Some lots_data)) g in
  result = Some true /\
  is_server_connected sys' = true /\
  map (fun lot => (_lot_id lot, _occupied_spaces lot)) (_lots sys')
  = [("17", o17); ("18", o18); ("19", o19); ("14", o14)].
Proof.
  intros Hshape H17 H18 H19 H14. unfold catalog_shaped in Hshape.
  destruct sys as [lots c]. cbn [_lots] in Hshape.
  destruct lots as [|l1 [|l2 [|l3 [|l4 [|? ?]]]]]; try discriminate Hshape.
  destruct l1, l2, l3, l4. cbn in Hshape.
  injection Hshape as -> -> -> -> -> -> -> ->.
  cbn -[Z.max Z.min].
  repeat split.
  rewrite !Z.min_l, !Z.max_r by lia. reflexivity.
Qed.

(** C4 at an answer whose status is not 200: [refresh_data] ends without a
    [return], and neither the connection flag nor any occupancy changes. *)
Theorem refresh_data_non_200_is_silent
    (sys : ParkingSystem) (status_code : Z) (json : option (list lot_data)) (g : rng) :
  status_code <> 200 ->
  refresh_data randint sys (Response status_code json) g = (None, sys, g).
Proof.
  intros Hne. unfold refresh_data.
  destruct (Z.eqb_spec status_code 200); [contradiction|reflexivity].
Qed.

End Synchronizer.

Lemma refresh_data_non_200_is_silent_witness :
  let connected := mk_ParkingSystem _initialize_lots true in
  refresh_data least_randint connected (Response 500 None) tt
  = (None, connected, tt) /\
  is_server_connected connected = true.
Proof.
  split; [|reflexivity].
  apply (refresh_data_non_200_is_silent least_randint).
  lia.
Defined.

End ClientFacts.

(** ** The server's store and handlers *)

Module ServerFacts.

Import Server.

(** *** The dictionary *)

Lemma store_get_alter_eq f k s :
  store_get k (store_alter f k s) = f <$> store_get k s.
Proof.
  induction s as [|[k' v] s IH]; cbn; [reflexivity|].
  destruct (String.eqb_spec k' k) as [->|Hne]; cbn.
  - rewrite String.eqb_refl. reflexivity.
  - destruct (String.eqb_spec k' k); [contradiction|exact IH].
Qed.

Lemma store_get_alter_ne f k k' s :
  k <> k' -> store_get k' (store_alter f k s) = store_get k' s.
Proof.
  intros Hne. induction s as [|[k0 v] s IH]; cbn; [reflexivity|].
  destruct (String.eqb_spec k0 k) as [->|Hk]; cbn.
  - destruct (String.eqb_spec k k'); [contradiction|reflexivity].
  - destruct (String.eqb_spec k0 k'); [reflexivity|exact IH].
Qed.

Lemma store_alter_alter f h k s :
  store_alter f k (store_alter h k s) = store_alter (fun l => f (h l)) k s.
Proof.
  induction s as [|[k' v] s IH]; cbn; [reflexivity|].
  destruct (String.eqb_spec k' k) as [->|Hne]; cbn.
  - rewrite String.eqb_refl. reflexivity.
  - destruct (String.eqb_spec k' k); [contradiction|]. rewrite IH. reflexivity.
Qed.

Lemma store_alter_id f k s :
  (forall l, store_get k s = Some l -> f l = l) -> store_alter f k s = s.
Proof.
  induction s as [|[k' v] s IH]; cbn; intros Hf; [reflexivity|].
  destruct (String.eqb_spec k' k) as [->|Hne].
  - rewrite (Hf v eq_refl). reflexivity.
  - rewrite IH by exact Hf. reflexivity.
Qed.

Lemma store_alter_missing f k s :
  store_get k s = None -> store_alter f k s = s.
Proof. intros H. apply store_alter_id. intros l Hl. congruence. Qed.

Lemma store_get_elem k l s : (k, l) ∈ s -> is_Some (store_get k s).
Proof.
  induction s as [|[k' v] s IH]; intros Hin.
  - inversion Hin.
  - cbn. destruct (String.eqb_spec k' k); [eauto|].
    apply IH. inversion Hin; subst; [contradiction|assumption].
Qed.

(** *** Counting occupied spaces *)

Lemma fold_sum_acc (l : list bool) (a : Z) :
  fold_left (fun acc (b : bool) => acc + Z.b2z b) l a
  = a + fold_left (fun acc (b : bool) => acc + Z.b2z b) l 0.
Proof.
  revert a. induction l as [|b l IH]; intros a; cbn; [lia|].
  rewrite IH, (IH (0 + Z.b2z b)). lia.
Qed.

Lemma sum_cons b l : sum (b :: l) = Z.b2z b + sum l.
Proof. unfold sum. cbn. apply fold_sum_acc. Qed.

Lemma sum_replicate n b : sum (replicate n b) = Z.b2z b * Z.of_nat n.
Proof.
  induction n as [|n IH]; [cbn; lia|].
  cbn [replicate]. rewrite sum_cons, IH. lia.
Qed.

Lemma sum_insert l i b b' :
  l !! i = Some b -> sum (<[i := b']> l) = sum l - Z.b2z b + Z.b2z b'.
Proof.
  revert i. induction l as [|x l IH]; intros [|i] Hi; try discriminate.
  - cbn in Hi. injection Hi as ->. cbn [insert list_insert].
    rewrite !sum_cons. lia.
  - cbn in Hi. change (<[S i := b']> (x :: l)) with (x :: <[i := b']> l).
    rewrite !sum_cons, (IH i Hi). lia.
Qed.

Lemma sum_bounds l : 0 <= sum l <= Z.of_nat (length l).
Proof.
  induction l as [|b l IH]; [cbn; lia|].
  rewrite sum_cons. cbn [length]. destruct b; cbn [Z.b2z]; lia.
Qed.

(** Setting the spaces at distinct, still empty positions adds one occupied
    space per position. *)
Lemma sum_mark (idxs : list nat) (sp : list bool) :
  NoDup idxs -> Forall (fun i => sp !! i = Some false) idxs ->
  sum (foldl (fun acc i => <[i := true]> acc) sp idxs)
  = sum sp + Z.of_nat (length idxs).
Proof.
  revert sp. induction idxs as [|i idxs IH]; intros sp Hnd Hall;
    cbn [foldl length]; [cbn; lia|].
  apply NoDup_cons in Hnd as [Hni Hnd]. apply Forall_cons in Hall as [Hi Hall].
  rewrite IH.
  - rewrite (sum_insert _ _ _ _ Hi), Nat2Z.inj_succ. cbn [Z.b2z]. lia.
  - exact Hnd.
  - rewrite Forall_forall in Hall |- *. intros j Hj.
    rewrite list_lookup_insert_ne; [exact (Hall j Hj)|].
    intros ->. contradiction.
Qed.

(** *** The handlers, one outcome at a time *)

Ltac run :=
  unfold toggle_space, reset_lot, fill_lot, get_lot, summarize,
    get_available_count, get_occupied_count, get_space, set_space, set_spaces,
    save_data, not_in, getitem, bind, ret, raise, spaces_set;
  cbn [PARKING_LOTS DATA_FILE spaces total_spaces with_spaces].

(** Step through the lookups of a lot known by the equation [H]. *)
Ltac step H :=
  repeat (progress (rewrite ?store_get_alter_eq, ?H; cbv beta iota zeta;
                    cbn [PARKING_LOTS DATA_FILE orb fmap option_fmap option_map
                         spaces total_spaces with_spaces])).

Ltac run_with H := run; step H.

Lemma get_lot_missing now k st :
  store_get k (PARKING_LOTS st) = None -> get_lot now k st = (Ret not_found, st).
Proof. intros H. run_with H. reflexivity. Qed.

Lemma toggle_space_missing fs k i st :
  store_get k (PARKING_LOTS st) = None ->
  toggle_space fs k i st = (Ret not_found, st).
Proof. intros H. run_with H. reflexivity. Qed.

Lemma reset_lot_missing fs k st :
  store_get k (PARKING_LOTS st) = None -> reset_lot fs k st = (Ret not_found, st).
Proof. intros H. run_with H. reflexivity. Qed.

Lemma fill_lot_missing fs k st :
  store_get k (PARKING_LOTS st) = None -> fill_lot fs k st = (Ret not_found, st).
Proof. intros H. run_with H. reflexivity. Qed.

Lemma toggle_space_out_of_range fs k i st l :
  store_get k (PARKING_LOTS st) = Some l ->
  i < 0 \/ total_spaces l <= i ->
  toggle_space fs k i st = (Ret invalid_index, st).
Proof.
  intros H Hi. run_with H.
  destruct (Z.ltb_spec i 0), (Z.leb_spec (total_spaces l) i); try lia; reflexivity.
Qed.

Lemma toggle_space_short_list fs k i st l :
  store_get k (PARKING_LOTS st) = Some l ->
  0 <= i < total_spaces l -> spaces l !! Z.to_nat i = None ->
  toggle_space fs k i st = (Raise IndexError, st).
Proof.
  intros H Hi Hsp. run_with H.
  destruct (Z.ltb_spec i 0), (Z.leb_spec (total_spaces l) i); try lia.
  step H. rewrite Hsp. reflexivity.
Qed.

Lemma toggle_space_flips fs k i st l b :
  store_get k (PARKING_LOTS st) = Some l ->
  0 <= i < total_spaces l -> spaces l !! Z.to_nat i = Some b ->
  let sp := <[Z.to_nat i := negb b]> (spaces l) in
  toggle_space fs k i st =
    if fs then
      (Ret (jsonify (Toggled k i (negb b) (sum sp) (total_spaces l - sum sp))),
       mk_state (spaces_set k sp st) (Some (spaces_set k sp st)))
    else (Raise OSError, mk_state (spaces_set k sp st) (DATA_FILE st)).
Proof.
  intros H Hi Hsp sp. run_with H.
  destruct (Z.ltb_spec i 0), (Z.leb_spec (total_spaces l) i); try lia.
  assert (Hlen : (Z.to_nat i < length (spaces l))%nat)
    by (apply lookup_lt_is_Some; eauto).
  step H. rewrite Hsp. step H.
  destruct (Nat.ltb_spec (Z.to_nat i) (length (spaces l))); [|lia].
  destruct fs; [|reflexivity].
  step H. rewrite list_lookup_insert_eq by exact Hlen. step H. reflexivity.
Qed.

Lemma reset_lot_clears fs k st l :
  store_get k (PARKING_LOTS st) = Some l ->
  let sp := replicate (Z.to_nat (total_spaces l)) false in
  reset_lot fs k st =
    if fs then
      (Ret (jsonify (Message k "All spaces cleared")),
       mk_state (spaces_set k sp st) (Some (spaces_set k sp st)))
    else (Raise OSError, mk_state (spaces_set k sp st) (DATA_FILE st)).
Proof. intros H sp. run_with H. destruct fs; reflexivity. Qed.

Lemma fill_lot_fills fs k st l :
  store_get k (PARKING_LOTS st) = Some l ->
  let sp := replicate (Z.to_nat (total_spaces l)) true in
  fill_lot fs k st =
    if fs then
      (Ret (jsonify (Message k "All spaces filled")),
       mk_state (spaces_set k sp st) (Some (spaces_set k sp st)))
    else (Raise OSError, mk_state (spaces_set k sp st) (DATA_FILE st)).
Proof. intros H sp. run_with H. destruct fs; reflexivity. Qed.

Lemma get_lot_found now k st l :
  store_get k (PARKING_LOTS st) = Some l ->
  get_lot now k st =
    (Ret (jsonify (Lot (mk_lot_summary (lot_id l) (name l) (total_spaces l)
                          (sum (spaces l)) (total_spaces l - sum (spaces l))
                          (permit_type l) (drive_time l) (walk_time l) now)
                       (spaces l))), st).
Proof. intros H. run_with H. reflexivity. Qed.

Lemma summarize_items_returns now items st :
  (forall k l, (k, l) ∈ items -> is_Some (store_get k (PARKING_LOTS st))) ->
  exists xs, summarize_items now items st = (Ret xs, st) /\
             length xs = length items.
Proof.
  induction items as [|[k l] items IH]; intros Hin.
  - exists []. split; reflexivity.
  - destruct (Hin k l ltac:(left)) as [l' Hl'].
    destruct IH as (xs & Hxs & Hlen).
    { intros k0 l0 H0. apply (Hin k0 l0). right. exact H0. }
    cbn [summarize_items]. run_with Hl'. fold summarize_items.
    unfold bind, ret in Hxs |- *. rewrite Hxs.
    eexists. split; [reflexivity|]. cbn. rewrite Hlen. reflexivity.
Qed.

Lemma get_all_lots_returns now st :
  exists xs, get_all_lots now st = (Ret (jsonify (Lots xs)), st) /\
             length xs = length (PARKING_LOTS st).
Proof.
  destruct (summarize_items_returns now (PARKING_LOTS st) st) as (xs & Hxs & Hlen).
  { intros k l. apply store_get_elem. }
  exists xs. split; [|exact Hlen].
  unfold get_all_lots, bind, ret. rewrite Hxs. reflexivity.
Qed.

(** *** Marking sampled spaces *)

Lemma mark_length idxs sp : length (mark sp idxs) = length sp.
Proof.
  revert sp. induction idxs as [|j idxs IH]; intros sp; [reflexivity|].
  unfold mark in *. cbn [foldl]. rewrite IH. apply length_insert.
Qed.

Lemma mark_lookup_notin idxs sp i : i ∉ idxs -> mark sp idxs !! i = sp !! i.
Proof.
  revert sp. induction idxs as [|j idxs IH]; intros sp Hni; [reflexivity|].
  apply not_elem_of_cons in Hni as [Hne Hni].
  unfold mark in *. cbn [foldl]. rewrite IH by exact Hni.
  apply list_lookup_insert_ne. congruence.
Qed.

Lemma mark_lookup_in idxs sp i :
  i ∈ idxs -> (i < length sp)%nat -> mark sp idxs !! i = Some true.
Proof.
  revert sp. induction idxs as [|j idxs IH]; intros sp Hin Hlt.
  - inversion Hin.
  - change (mark sp (j :: idxs)) with (mark (<[j := true]> sp) idxs).
    destruct (decide (i ∈ idxs)) as [Hi|Hni].
    + apply IH; [exact Hi|]. rewrite length_insert. exact Hlt.
    + rewrite mark_lookup_notin by exact Hni.
      apply elem_of_cons in Hin as [->|Hi]; [|contradiction].
      apply list_lookup_insert_eq. exact Hlt.
Qed.

Lemma store_alter_ext f h k s :
  (forall l, f l = h l) -> store_alter f k s = store_alter h k s.
Proof.
  intros Hfh. induction s as [|[k' v] s IH]; cbn; [reflexivity|].
  rewrite Hfh, IH. reflexivity.
Qed.

Lemma with_spaces_same l : with_spaces (spaces l) l = l.
Proof. destruct l. reflexivity. Qed.

Lemma mark_occupied_run k idxs st l :
  store_get k (PARKING_LOTS st) = Some l ->
  Forall (fun i => (i < length (spaces l))%nat) idxs ->
  mark_occupied k idxs st
  = (Ret tt, mk_state (spaces_set k (mark (spaces l) idxs) st) (DATA_FILE st)).
Proof.
  revert st l. induction idxs as [|j idxs IH]; intros st l H Hall.
  - unfold spaces_set, mark. cbn [foldl mark_occupied].
    rewrite store_alter_id.
    + destruct st. reflexivity.
    + intros l' Hl'. rewrite H in Hl'. injection Hl' as <-.
      apply with_spaces_same.
  - apply Forall_cons in Hall as [Hj Hall].
    cbn [mark_occupied]. run_with H.
    destruct (Nat.ltb_spec j (length (spaces l))); [|lia]. step H.
    rewrite (IH _ (with_spaces (<[j := true]> (spaces l)) l)).
    + unfold spaces_set. cbn [PARKING_LOTS DATA_FILE spaces with_spaces].
      rewrite store_alter_alter. reflexivity.
    + cbn [PARKING_LOTS]. rewrite store_get_alter_eq, H. reflexivity.
    + cbn [spaces with_spaces]. rewrite length_insert. exact Hall.
Qed.

(** *** What a mutation of the lot under [k] may change *)

Lemma frame_refl k s : frame k s s.
Proof. split; [reflexivity|]. intros; reflexivity. Qed.

Lemma frame_trans k s1 s2 s3 : frame k s1 s2 -> frame k s2 s3 -> frame k s1 s3.
Proof.
  intros [Hm1 Hg1] [Hm2 Hg2]. split; [congruence|].
  intros k' Hne. rewrite Hg2, Hg1 by exact Hne. reflexivity.
Qed.

Lemma frame_spaces_set k sp st : frame k (PARKING_LOTS st) (spaces_set k sp st).
Proof.
  unfold spaces_set. split.
  - induction (PARKING_LOTS st) as [|[k' v] s IH]; cbn; [reflexivity|].
    destruct (k' =? k)%string; cbn; [reflexivity|]. f_equal. exact IH.
  - intros k' Hne. apply store_get_alter_ne. congruence.
Qed.

Lemma mark_occupied_frame k idxs st :
  frame k (PARKING_LOTS st) (PARKING_LOTS (snd (mark_occupied k idxs st))) /\
  DATA_FILE (snd (mark_occupied k idxs st)) = DATA_FILE st.
Proof.
  revert st. induction idxs as [|j idxs IH]; intros st.
  - split; [apply frame_refl|reflexivity].
  - cbn [mark_occupied]. run.
    destruct (store_get k (PARKING_LOTS st)) as [l|] eqn:H;
      [|split; [apply frame_refl|reflexivity]].
    step H.
    destruct (j <? length (spaces l))%nat;
      [|split; [apply frame_refl|reflexivity]].
    step H.
    set (st1 := mk_state _ _).
    destruct (IH st1) as [Hf Hd]. split.
    + eapply frame_trans; [|exact Hf]. apply (frame_spaces_set k _ st).
    + rewrite Hd. reflexivity.
Qed.

(** Every outcome of [toggle_space]: the state is left as it was, or exactly
    one space of the lot under [k] is flipped. *)
Lemma toggle_space_cases fs k i st :
  snd (toggle_space fs k i st) = st \/
  exists l b, store_get k (PARKING_LOTS st) = Some l /\
              0 <= i < total_spaces l /\
              spaces l !! Z.to_nat i = Some b /\
              PARKING_LOTS (snd (toggle_space fs k i st))
              = spaces_set k (<[Z.to_nat i := negb b]> (spaces l)) st.
Proof.
  destruct (store_get k (PARKING_LOTS st)) as [l|] eqn:H;
    [|left; rewrite toggle_space_missing by exact H; reflexivity].
  destruct (Z.lt_ge_cases i 0) as [?|Hi0];
    [left; erewrite toggle_space_out_of_range by eauto; reflexivity|].
  destruct (Z.le_gt_cases (total_spaces l) i) as [?|Hi1];
    [left; erewrite toggle_space_out_of_range by eauto; reflexivity|].
  destruct (spaces l !! Z.to_nat i) as [b|] eqn:Hb.
  - right. exists l, b. repeat split; try assumption.
    rewrite (toggle_space_flips fs k i st l b) by (auto; lia).
    destruct fs; reflexivity.
  - left. rewrite (toggle_space_short_list fs k i st l) by (auto; lia).
    reflexivity.
Qed.

Lemma toggle_space_frame fs k i st :
  frame k (PARKING_LOTS st) (PARKING_LOTS (snd (toggle_space fs k i st))).
Proof.
  destruct (toggle_space_cases fs k i st) as [-> | (l & b & _ & _ & _ & ->)].
  - apply frame_refl.
  - apply (frame_spaces_set k _ st).
Qed.

Lemma toggle_space_other_spaces fs k i st l l' j :
  store_get k (PARKING_LOTS st) = Some l ->
  store_get k (PARKING_LOTS (snd (toggle_space fs k i st))) = Some l' ->
  Z.of_nat j <> i ->
  spaces l' !! j = spaces l !! j.
Proof.
  intros H H' Hj.
  destruct (toggle_space_cases fs k i st) as [Heq | (l0 & b & Hl0 & Hi & Hb & Heq)];
    rewrite Heq in H'.
  - congruence.
  - assert (l0 = l) as -> by congruence.
    unfold spaces_set in H'. rewrite store_get_alter_eq, H in H'.
    injection H' as <-. cbn [spaces with_spaces].
    apply list_lookup_insert_ne. lia.
Qed.

Lemma reset_lot_frame fs k st :
  frame k (PARKING_LOTS st) (PARKING_LOTS (snd (reset_lot fs k st))).
Proof.
  destruct (store_get k (PARKING_LOTS st)) as [l|] eqn:H.
  - rewrite (reset_lot_clears fs k st l H).
    destruct fs; apply (frame_spaces_set k _ st).
  - rewrite reset_lot_missing by exact H. apply frame_refl.
Qed.

Lemma fill_lot_frame fs k st :
  frame k (PARKING_LOTS st) (PARKING_LOTS (snd (fill_lot fs k st))).
Proof.
  destruct (store_get k (PARKING_LOTS st)) as [l|] eqn:H.
  - rewrite (fill_lot_fills fs k st l H).
    destruct fs; apply (frame_spaces_set k _ st).
  - rewrite fill_lot_missing by exact H. apply frame_refl.
Qed.

Section Randomize.

Context {rng : Type}
  (randint : Z -> Z -> rng -> Z * rng)
  (sample : Z -> Z -> rng -> list nat * rng).

Lemma randomize_lot_missing fs k g st :
  store_get k (PARKING_LOTS st) = None ->
  randomize_lot randint sample fs k g st = (Ret not_found, st, g).
Proof. intros H. unfold randomize_lot. rewrite H. reflexivity. Qed.

Lemma randomize_lot_draw (k : string) (g : rng) :
  (if (k =? "17")%string then randint 28 35 g
   else if (k =? "18")%string then randint 40 45 g
   else if (k =? "19")%string then randint 45 60 g
   else randint 15 40 g) = drawn_count randint k g.
Proof.
  unfold drawn_count, occupancy_range.
  repeat match goal with |- context [if ?c then _ else _] => destruct c end;
    reflexivity.
Qed.

Lemma randomize_lot_run fs k g st l :
  store_get k (PARKING_LOTS st) = Some l ->
  0 <= fst (drawn_count randint k g) <= total_spaces l ->
  Forall (fun i => (i < Z.to_nat (total_spaces l))%nat) (drawn_indices randint sample k l g) ->
  let n := fst (drawn_count randint k g) in
  let sp := mark (replicate (Z.to_nat (total_spaces l)) false) (drawn_indices randint sample k l g) in
  fst (randomize_lot randint sample fs k g st) =
    if fs then
      (Ret (jsonify (Randomized k n (total_spaces l - n))),
       mk_state (spaces_set k sp st) (Some (spaces_set k sp st)))
    else (Raise OSError, mk_state (spaces_set k sp st) (DATA_FILE st)).
Proof.
  intros H Hn Hidx n sp. unfold randomize_lot. rewrite H, randomize_lot_draw.
  unfold drawn_indices in *. subst n.
  destruct (drawn_count randint k g) as [n g1]. cbn [fst snd] in *.
  unfold set_spaces at 1.
  destruct (Z.ltb_spec n 0), (Z.ltb_spec (Z.max 0 (total_spaces l)) n); try lia.
  cbn [orb].
  destruct (sample (total_spaces l) n g1) as [idxs g2]. cbn [fst] in *.
  unfold bind.
  rewrite (mark_occupied_run k idxs _
             (with_spaces (replicate (Z.to_nat (total_spaces l)) false) l)).
  - cbn [spaces with_spaces]. fold sp.
    unfold spaces_set, save_data, ret.
    cbn [PARKING_LOTS DATA_FILE fst]. rewrite store_alter_alter.
    destruct fs; reflexivity.
  - cbn [PARKING_LOTS]. rewrite store_get_alter_eq, H. reflexivity.
  - cbn [spaces with_spaces]. rewrite length_replicate. exact Hidx.
Qed.

Lemma randomize_lot_frame fs k g st :
  frame k (PARKING_LOTS st)
        (PARKING_LOTS (snd (fst (randomize_lot randint sample fs k g st)))).
Proof.
  unfold randomize_lot.
  destruct (store_get k (PARKING_LOTS st)) as [l|] eqn:H; [|apply frame_refl].
  rewrite randomize_lot_draw. destruct (drawn_count randint k g) as [n g1].
  unfold set_spaces at 1.
  set (st1 := mk_state _ _).
  assert (Hst1 : frame k (PARKING_LOTS st) (PARKING_LOTS st1))
    by apply (frame_spaces_set k _ st).
  destruct ((n <? 0) || (Z.max 0 (total_spaces l) <? n)); [exact Hst1|].
  destruct (sample (total_spaces l) n g1) as [idxs g2].
  unfold bind. destruct (mark_occupied_frame k idxs st1) as [Hf _].
  destruct (mark_occupied k idxs st1) as [[[]|e] st2]; cbn [snd] in Hf.
  - unfold save_data, ret. destruct fs; cbn [fst snd PARKING_LOTS];
      eapply frame_trans; eauto.
  - cbn [fst snd]. eapply frame_trans; eauto.
Qed.

Lemma int_converter_nonneg segment i : int_converter segment = Some i -> 0 <= i.
Proof.
  unfold int_converter.
  destruct (DecimalString.NilZero.uint_of_string segment) as [d|]; [|discriminate].
  intros [= <-]. unfold Z.of_uint. apply N2Z.is_nonneg.
Qed.

Lemma int_converter_negative i : i < 0 -> int_converter (index_segment i) = None.
Proof.
  destruct i as [|p|p]; try lia. intros _.
  unfold index_segment, int_converter.
  cbn [Z.to_int DecimalString.NilZero.string_of_int]. cbn.
  destruct (DecimalString.NilEmpty.uint_of_string _); reflexivity.
Qed.

Lemma int_converter_index i : 0 <= i -> int_converter (index_segment i) = Some i.
Proof.
  intros Hi. unfold index_segment, int_converter.
  pose proof (DecimalZ.of_to i) as Hof.
  destruct i as [|p|p]; try lia; [reflexivity|].
  cbn [Z.to_int DecimalString.NilZero.string_of_int] in *.
  rewrite DecimalString.NilZero.usu.
  - f_equal. exact Hof.
  - apply DecimalPos.Unsigned.to_uint_nonnil.
Qed.


(** C10. The four mutating handlers and the client's [update_occupancy]
    change occupancy only: the keys of the dictionary and their order, and
    under every key the id, name, capacity, permit type, drive time and walk
    time, are the same afterwards, and the lots under other keys are
    untouched; [toggle_space] also leaves every space of its lot other than
    the one at [space_index] as it was. *)
Theorem mutations_change_only_occupancy fs k i g st :
  frame k (PARKING_LOTS st) (PARKING_LOTS (snd (toggle_space fs k i st))) /\
  frame k (PARKING_LOTS st) (PARKING_LOTS (snd (reset_lot fs k st))) /\
  frame k (PARKING_LOTS st) (PARKING_LOTS (snd (fill_lot fs k st))) /\
  frame k (PARKING_LOTS st)
    (PARKING_LOTS (snd (fst (randomize_lot randint sample fs k g st)))) /\
  (forall l l' j,
     store_get k (PARKING_LOTS st) = Some l ->
     store_get k (PARKING_LOTS (snd (toggle_space fs k i st))) = Some l' ->
     Z.of_nat j <> i ->
     spaces l' !! j = spaces l !! j) /\
  (forall (lot : Client.ParkingLot) (n : Z),
     let lot' := Client.update_occupancy lot n in
     Client._lot_id lot' = Client._lot_id lot /\
     Client._name lot' = Client._name lot /\
     Client._total_spaces lot' = Client._total_spaces lot /\
     Client._permit_type lot' = Client._permit_type lot /\
     Client._drive_time lot' = Client._drive_time lot).
Proof.
  split; [apply toggle_space_frame|].
  split; [apply reset_lot_frame|].
  split; [apply fill_lot_frame|].
  split; [apply randomize_lot_frame|].
  split; [apply toggle_space_other_spaces|].
  intros lot n. cbn. repeat split.
Qed.

Lemma get_lot_reads_memory now k st1 st2 :
  PARKING_LOTS st1 = PARKING_LOTS st2 ->
  fst (get_lot now k st1) = fst (get_lot now k st2).
Proof.
  intros Heq. destruct (store_get k (PARKING_LOTS st1)) as [l|] eqn:H.
  - rewrite (get_lot_found now k st1 l H).
    rewrite Heq in H. rewrite (get_lot_found now k st2 l H). reflexivity.
  - rewrite (get_lot_missing now k st1 H).
    rewrite Heq in H. rewrite (get_lot_missing now k st2 H). reflexivity.
Qed.

(** C8, as the code has it.  Each mutating handler that answers 200 has by
    then dumped the whole dictionary to [DATA_FILE]; when the write fails
    the handler raises [OSError] instead of answering and the change made
    in memory stays, so that a later read answers from the changed
    dictionary. *)
Theorem mutations_write_through k i g st :
  writes_through (fun fs => toggle_space fs k i st) /\
  writes_through (fun fs => reset_lot fs k st) /\
  writes_through (fun fs => fill_lot fs k st) /\
  writes_through (fun fs => fst (randomize_lot randint sample fs k g st)) /\
  (forall now k' st1 st2,
     PARKING_LOTS st1 = PARKING_LOTS st2 ->
     fst (get_lot now k' st1) = fst (get_lot now k' st2)).
Proof.
  split; [|split; [|split; [|split]]].
  - intros r Hr Hst.
    destruct (store_get k (PARKING_LOTS st)) as [l|] eqn:H.
    2:{ rewrite toggle_space_missing in Hr by exact H.
        injection Hr as <-. discriminate Hst. }
    destruct (Z.lt_ge_cases i 0) as [?|Hi0].
    { rewrite (toggle_space_out_of_range true k i st l) in Hr by auto.
      injection Hr as <-. discriminate Hst. }
    destruct (Z.le_gt_cases (total_spaces l) i) as [?|Hi1].
    { rewrite (toggle_space_out_of_range true k i st l) in Hr by auto.
      injection Hr as <-. discriminate Hst. }
    destruct (spaces l !! Z.to_nat i) as [b|] eqn:Hb.
    + rewrite !(toggle_space_flips _ k i st l b) by (auto; lia).
      repeat split.
    + rewrite (toggle_space_short_list true k i st l) in Hr by (auto; lia).
      discriminate Hr.
  - intros r Hr Hst.
    destruct (store_get k (PARKING_LOTS st)) as [l|] eqn:H.
    + rewrite !(reset_lot_clears _ k st l H). repeat split.
    + rewrite reset_lot_missing in Hr by exact H.
      injection Hr as <-. discriminate Hst.
  - intros r Hr Hst.
    destruct (store_get k (PARKING_LOTS st)) as [l|] eqn:H.
    + rewrite !(fill_lot_fills _ k st l H). repeat split.
    + rewrite fill_lot_missing in Hr by exact H.
      injection Hr as <-. discriminate Hst.
  - intros r. cbv beta. unfold randomize_lot.
    destruct (store_get k (PARKING_LOTS st)) as [l|] eqn:H.
    2:{ cbn [fst snd]. intros Hr Hst. injection Hr as <-. discriminate Hst. }
    rewrite !randomize_lot_draw. destruct (drawn_count randint k g) as [n g1].
    unfold set_spaces. cbv beta iota zeta.
    set (st1 := mk_state _ _).
    destruct ((n <? 0) || (Z.max 0 (total_spaces l) <? n));
      [cbn [fst]; discriminate|].
    destruct (sample (total_spaces l) n g1) as [idxs g2].
    unfold bind. destruct (mark_occupied_frame k idxs st1) as [_ Hd].
    destruct (mark_occupied k idxs st1) as [[[]|e] st2];
      [|cbn [fst]; discriminate].
    cbn [snd] in Hd. unfold save_data, ret. cbn [fst snd PARKING_LOTS DATA_FILE].
    intros _ _. repeat split.
  - intros now k' st1 st2. apply get_lot_reads_memory.
Qed.

Hypothesis sample_distinct :
  forall n c g, 0 <= c <= n ->
    NoDup (fst (sample n c g)) /\
    Z.of_nat (length (fst (sample n c g))) = c /\
    Forall (fun i => (i < Z.to_nat n)%nat) (fst (sample n c g)).

Lemma occupancy_range_ordered k :
  0 < fst (occupancy_range k) <= snd (occupancy_range k).
Proof.
  unfold occupancy_range.
  repeat match goal with |- context [if ?c then _ else _] => destruct c end;
    cbn; lia.
Qed.

Lemma catalog_ranges_fit k l :
  store_get k catalog = Some l -> snd (occupancy_range k) <= total_spaces l.
Proof.
  unfold catalog, store_get, occupancy_range.
  repeat match goal with
         | |- context [("17" =? k)%string] =>
             destruct (String.eqb_spec "17" k) as [<-|?]
         | |- context [("18" =? k)%string] =>
             destruct (String.eqb_spec "18" k) as [<-|?]
         | |- context [("19" =? k)%string] =>
             destruct (String.eqb_spec "19" k) as [<-|?]
         | |- context [("14" =? k)%string] =>
             destruct (String.eqb_spec "14" k) as [<-|?]
         end;
    intros Hl; try discriminate Hl; injection Hl as <-; cbn; lia.
Qed.

(** C7. [randomize_lot] on a known lot draws a count [n] and, whenever
    [0 <= n <= capacity], empties the bitmap and marks exactly the [n]
    distinct sampled positions: afterwards the occupied count is [n] and the
    available count is the capacity minus [n], which is also what the
    answer reports.  With [randint] within its bounds [n] lies in the range
    configured for the lot, and the ranges of the catalog lie within the
    capacities. *)
Theorem randomize_lot_exact_count fs k g st l :
  store_get k (PARKING_LOTS st) = Some l ->
  0 <= fst (drawn_count randint k g) <= total_spaces l ->
  let n := fst (drawn_count randint k g) in
  let idxs := drawn_indices randint sample k l g in
  let st' := snd (fst (randomize_lot randint sample fs k g st)) in
  NoDup idxs /\ Z.of_nat (length idxs) = n /\
  (exists sp, store_get k (PARKING_LOTS st') = Some (with_spaces sp l) /\
              length sp = Z.to_nat (total_spaces l) /\
              (forall i, sp !! i = Some true <-> i ∈ idxs) /\
              sum sp = n) /\
  fst (get_occupied_count k st') = Ret n /\
  fst (get_available_count k st') = Ret (total_spaces l - n) /\
  fst (fst (randomize_lot randint sample true k g st))
  = Ret (jsonify (Randomized k n (total_spaces l - n))) /\
  ((forall a b g', a <= b -> a <= fst (randint a b g') <= b) ->
   fst (occupancy_range k) <= n <= snd (occupancy_range k)) /\
  (forall k0 l0, store_get k0 catalog = Some l0 ->
                 0 < fst (occupancy_range k0) /\
                 snd (occupancy_range k0) <= total_spaces l0).
Proof.
  intros H Hn n idxs st'.
  pose proof (occupancy_range_ordered k) as Hord.
  destruct (sample_distinct (total_spaces l) n (snd (drawn_count randint k g))
              ltac:(subst n; lia)) as (Hnd & Hlen & Hlt).
  fold (drawn_indices randint sample k l g) in Hnd, Hlen, Hlt. fold idxs in Hnd, Hlen, Hlt.
  set (T := Z.to_nat (total_spaces l)) in *.
  set (sp := mark (replicate T false) idxs).
  assert (Hrun : forall fs',
             fst (randomize_lot randint sample fs' k g st) =
             if fs' then
               (Ret (jsonify (Randomized k n (total_spaces l - n))),
                mk_state (spaces_set k sp st) (Some (spaces_set k sp st)))
             else (Raise OSError, mk_state (spaces_set k sp st) (DATA_FILE st))).
  { intros fs'. apply randomize_lot_run; [exact H|exact Hn|exact Hlt]. }
  assert (Hst' : PARKING_LOTS st' = spaces_set k sp st).
  { subst st'. rewrite Hrun. destruct fs; reflexivity. }
  assert (Hl' : store_get k (PARKING_LOTS st') = Some (with_spaces sp l)).
  { rewrite Hst'. unfold spaces_set. rewrite store_get_alter_eq, H. reflexivity. }
  assert (Hsum : sum sp = n).
  { unfold sp, mark. rewrite sum_mark.
    - rewrite sum_replicate. cbn [Z.b2z]. rewrite Z.mul_0_l, Z.add_0_l.
      exact Hlen.
    - exact Hnd.
    - rewrite Forall_forall in Hlt |- *. intros i Hi.
      apply lookup_replicate_2. apply Hlt, Hi. }
  split; [exact Hnd|]. split; [exact Hlen|].
  split.
  { exists sp. split; [exact Hl'|].
    split; [unfold sp; rewrite mark_length, length_replicate; reflexivity|].
    split; [|exact Hsum].
    intros i. split.
    - intros Hi. destruct (decide (i ∈ idxs)) as [|Hni]; [assumption|exfalso].
      unfold sp in Hi. rewrite mark_lookup_notin in Hi by exact Hni.
      apply lookup_replicate in Hi as [Hi _]. discriminate Hi.
    - intros Hi. apply mark_lookup_in; [exact Hi|].
      rewrite length_replicate. rewrite Forall_forall in Hlt. apply Hlt, Hi. }
  split; [run_with Hl'; rewrite Hsum; reflexivity|].
  split; [run_with Hl'; rewrite Hsum; reflexivity|].
  split; [rewrite Hrun; reflexivity|].
  split; [intros Hrandint; apply Hrandint; lia|].
  intros k0 l0 Hk0. split; [apply occupancy_range_ordered|].
  apply catalog_ranges_fit, Hk0.
Qed.

End Randomize.

(** C9. On a known lot that holds one space per unit of capacity, toggling
    a valid index flips that space, and toggling it again restores the
    whole dictionary, hence the lot's bitmap and its occupied and available
    counts, whether or not the writes to disk went through. *)
Theorem toggle_space_twice fs1 fs2 k i st l :
  store_get k (PARKING_LOTS st) = Some l ->
  0 <= i < total_spaces l ->
  Z.of_nat (length (spaces l)) = total_spaces l ->
  let st1 := snd (toggle_space fs1 k i st) in
  let st2 := snd (toggle_space fs2 k i st1) in
  (exists b, spaces l !! Z.to_nat i = Some b /\
             store_get k (PARKING_LOTS st1)
             = Some (with_spaces (<[Z.to_nat i := negb b]> (spaces l)) l)) /\
  PARKING_LOTS st2 = PARKING_LOTS st /\
  store_get k (PARKING_LOTS st2) = Some l /\
  fst (get_occupied_count k st2) = Ret (sum (spaces l)) /\
  fst (get_available_count k st2) = Ret (total_spaces l - sum (spaces l)).
Proof.
  intros H Hi Hlen st1 st2.
  destruct (lookup_lt_is_Some_2 (spaces l) (Z.to_nat i) ltac:(lia)) as [b Hb].
  assert (Hi' : (Z.to_nat i < length (spaces l))%nat) by lia.
  set (sp := <[Z.to_nat i := negb b]> (spaces l)).
  assert (H1 : PARKING_LOTS st1 = spaces_set k sp st).
  { subst st1. rewrite (toggle_space_flips fs1 k i st l b) by auto.
    destruct fs1; reflexivity. }
  assert (Hl1 : store_get k (PARKING_LOTS st1) = Some (with_spaces sp l)).
  { rewrite H1. unfold spaces_set. rewrite store_get_alter_eq, H. reflexivity. }
  assert (H2 : PARKING_LOTS st2 = PARKING_LOTS st).
  { subst st2.
    rewrite (toggle_space_flips fs2 k i st1 (with_spaces sp l) (negb b));
      [|exact Hl1|exact Hi
       |cbn [spaces with_spaces]; apply list_lookup_insert_eq; exact Hi'].
    cbn [spaces with_spaces].
    assert (Hst2 : spaces_set k (<[Z.to_nat i := negb (negb b)]> sp) st1
                   = PARKING_LOTS st).
    { unfold spaces_set. rewrite H1. unfold spaces_set.
      rewrite store_alter_alter. apply store_alter_id.
      intros l' Hl'. rewrite H in Hl'. injection Hl' as <-.
      change (with_spaces (<[Z.to_nat i := negb (negb b)]> sp) (with_spaces sp l))
        with (with_spaces (<[Z.to_nat i := negb (negb b)]> sp) l).
      unfold sp. rewrite negb_involutive, list_insert_insert_eq.
      rewrite list_insert_id by exact Hb. apply with_spaces_same. }
    destruct fs2; cbn [snd PARKING_LOTS]; exact Hst2. }
  split; [exists b; split; assumption|].
  split; [exact H2|].
  assert (Hl2 : store_get k (PARKING_LOTS st2) = Some l) by (rewrite H2; exact H).
  split; [exact Hl2|].
  split; run_with Hl2; reflexivity.
Qed.

(** *** One space per unit of capacity *)

Lemma wf_catalog : wf_store (PARKING_LOTS startup).
Proof. repeat constructor. Qed.

Lemma store_get_wf k l s : wf_store s -> store_get k s = Some l -> wf_lot l.
Proof.
  induction 1 as [|[k' v] s Hv Hs IH]; cbn; [discriminate|].
  destruct (k' =? k)%string; [|exact IH]. intros [= <-]. exact Hv.
Qed.

Lemma spaces_set_wf k sp st l :
  wf_store (PARKING_LOTS st) -> store_get k (PARKING_LOTS st) = Some l ->
  length sp = length (spaces l) -> wf_store (spaces_set k sp st).
Proof.
  intros Hs H Hlen. unfold spaces_set.
  induction Hs as [|[k' v] s Hv Hs IH]; cbn in *; [constructor|].
  destruct (k' =? k)%string.
  - injection H as ->. constructor; [|exact Hs].
    unfold wf_lot in *. cbn in *. congruence.
  - constructor; [exact Hv|]. apply IH, H.
Qed.

(** The three deterministic mutations keep one space per unit of capacity,
    so the state of a server started from the catalog always satisfies the
    hypothesis of [toggle_space_twice]. *)
Lemma handlers_preserve_wf fs k i st :
  wf_store (PARKING_LOTS st) ->
  wf_store (PARKING_LOTS (snd (toggle_space fs k i st))) /\
  wf_store (PARKING_LOTS (snd (reset_lot fs k st))) /\
  wf_store (PARKING_LOTS (snd (fill_lot fs k st))).
Proof.
  intros Hs. split; [|split].
  - destruct (toggle_space_cases fs k i st) as [-> | (l & b & H & _ & _ & ->)];
      [exact Hs|].
    apply (spaces_set_wf k _ st l Hs H). apply length_insert.
  - destruct (store_get k (PARKING_LOTS st)) as [l|] eqn:H;
      [|rewrite reset_lot_missing by exact H; exact Hs].
    rewrite (reset_lot_clears fs k st l H).
    assert (wf_store (spaces_set k (replicate (Z.to_nat (total_spaces l)) false) st)).
    { apply (spaces_set_wf k _ st l Hs H). rewrite length_replicate.
      pose proof (store_get_wf k l _ Hs H) as Hl. unfold wf_lot in Hl. lia. }
    destruct fs; assumption.
  - destruct (store_get k (PARKING_LOTS st)) as [l|] eqn:H;
      [|rewrite fill_lot_missing by exact H; exact Hs].
    rewrite (fill_lot_fills fs k st l H).
    assert (wf_store (spaces_set k (replicate (Z.to_nat (total_spaces l)) true) st)).
    { apply (spaces_set_wf k _ st l Hs H). rewrite length_replicate.
      pose proof (store_get_wf k l _ Hs H) as Hl. unfold wf_lot in Hl. lia. }
    destruct fs; assumption.
Qed.

(** *** Instances at the catalog *)

Lemma least_randint_range (a b : Z) (g : unit) :
  a <= b -> a <= fst (least_randint a b g) <= b.
Proof. cbn. lia. Qed.

Lemma first_sample_distinct (n c : Z) (g : unit) :
  0 <= c <= n ->
  NoDup (fst (first_sample n c g)) /\
  Z.of_nat (length (fst (first_sample n c g))) = c /\
  Forall (fun i => (i < Z.to_nat n)%nat) (fst (first_sample n c g)).
Proof.
  intros Hc. cbn [first_sample fst]. split; [apply NoDup_seq|].
  split; [rewrite length_seq; lia|].
  apply Forall_forall. intros i Hi. apply elem_of_seq in Hi. lia.
Qed.



Lemma randomize_lot_exact_count_witness :
  fst (get_occupied_count "17"
         (snd (fst (randomize_lot least_randint first_sample true "17" tt startup))))
  = Ret 28.
Proof.
  refine (proj1 (proj2 (proj2 (proj2
    (randomize_lot_exact_count least_randint first_sample
       first_sample_distinct
       true "17" tt startup (mk_lot "17" "Lot 17" 35 "Student" 2 4 (replicate 35 false))
       _ _))))).
  - reflexivity.
  - cbn. lia.
Defined.

Lemma mutations_write_through_witness :
  fst (toggle_space false "17" 0 startup) = Raise OSError /\
  DATA_FILE (snd (toggle_space true "17" 0 startup))
  = Some (PARKING_LOTS (snd (toggle_space true "17" 0 startup))).
Proof.
  destruct (proj1 (mutations_write_through least_randint first_sample
                     "17" 0 tt startup)
              (jsonify (Toggled "17" 0 true 1 34)) eq_refl eq_refl)
    as (Hfile & Hraise & _).
  split; [exact Hraise|exact Hfile].
Defined.

(** C8 as stated fails where it promises a soft error: when the write to
    [DATA_FILE] fails, the handler does not answer at all; [OSError]
    propagates out of it, with the space already flipped in memory. *)
Lemma persistence_failure_is_raised :
  fst (toggle_space false "17" 0 startup) = Raise OSError /\
  ~ (exists r, fst (toggle_space false "17" 0 startup) = Ret r) /\
  (exists l, store_get "17" (PARKING_LOTS (snd (toggle_space false "17" 0 startup)))
             = Some l /\ spaces l !! 0%nat = Some true).
Proof.
  split; [reflexivity|]. split; [intros [r Hr]; discriminate Hr|].
  eexists; split; reflexivity.
Qed.

Lemma toggle_space_twice_witness :
  PARKING_LOTS (snd (toggle_space true "17" 3 (snd (toggle_space true "17" 3 startup))))
  = PARKING_LOTS startup.
Proof.
  refine (proj1 (proj2
    (toggle_space_twice true true "17" 3 startup
       (mk_lot "17" "Lot 17" 35 "Student" 2 4 (replicate 35 false)) _ _ _))).
  - reflexivity.
  - cbn. lia.
  - reflexivity.
Defined.

Lemma mutations_change_only_occupancy_witness :
  store_meta (PARKING_LOTS (snd (toggle_space true "17" 3 startup)))
  = store_meta (PARKING_LOTS startup) /\
  store_get "18" (PARKING_LOTS (snd (toggle_space true "17" 3 startup)))
  = store_get "18" (PARKING_LOTS startup).
Proof.
  destruct (proj1 (mutations_change_only_occupancy least_randint first_sample
                     true "17" 3 tt startup)) as [Hmeta Hothers].
  split; [exact Hmeta|]. apply Hothers. discriminate.
Defined.

End ServerFacts.

(** ** Further properties of the client *)

Module ClientExtras.

Import Client ClientFacts.

(** *** The classifier at any capacity *)

(** The quotient of [0 < n <= d] is a float between 0 and 1 whatever the
    size of [d]; when the exact ratio is at least 3/10 it compares at least
    the literal [0.3]. *)
Lemma true_divide_fraction n d :
  0 < n <= d ->
  exists f, Float.true_divide n d = Ret f /\
            (3 * d <= 10 * n -> Float.geb f Float.lit_0_3 = true).
Proof.
  intros Hnd. unfold Float.true_divide.
  destruct (Z.eqb_spec d 0) as [|_]; [lia|].
  destruct (Z.eqb_spec n 0) as [|_]; [lia|].
  rewrite (Z.abs_eq n), (Z.abs_eq d) by lia.
  rewrite (Z.sgn_pos n), (Z.sgn_pos d) by lia.
  destruct (floor_log2_quot_spec n d Hnd) as [HL0 HX].
  generalize dependent (Float.floor_log2_quot n d). intros L HL0 HX.
  set (e := Z.max (L - 52) (-1074)).
  assert (He : -1074 <= e <= -52) by (unfold e; lia).
  rewrite (Z.max_r 0 (- e)), (Z.max_l 0 e) by lia.
  change (2 ^ 0) with 1. rewrite !Z.mul_1_r, !Z.mul_1_l.
  set (m := Float.round_half_even (n * 2 ^ (- e)) d).
  assert (Hm2 : m <= 2 ^ 53).
  { apply round_half_even_le; [lia|].
    assert (2 ^ (- e) <= 2 ^ (52 + - L)) by (apply Z.pow_le_mono_r; unfold e; lia).
    rewrite Z.pow_add_r in H by lia.
    assert (0 < 2 ^ (- L)) by (apply Z.pow_pos_nonneg; lia).
    change (2 ^ 52) with 4503599627370496 in H.
    change (2 ^ 53) with 9007199254740992. nia. }
  destruct (Z.leb_spec (2 ^ 1024) m) as [Hov|_].
  { assert (2 ^ 53 < 2 ^ 1024) by (apply Z.pow_lt_mono_r; lia). lia. }
  eexists. split; [reflexivity|]. intros Hge.
  assert (HL : -2 <= L).
  { destruct (Z.le_gt_cases (-2) L) as [|Hlt]; [assumption|exfalso].
    assert (2 ^ 3 <= 2 ^ (- L)) by (apply Z.pow_le_mono_r; lia).
    change (2 ^ 3) with 8 in *. nia. }
  unfold Float.geb, Float.align, Float.lit_0_3; cbn [Float.mant Float.expo fst snd].
  apply Z.leb_le. subst m e.
  assert (Hcases : L = 0 \/ L = -1 \/ L = -2) by lia.
  destruct Hcases as [-> | [-> | ->]].
  - change (2 ^ (- 0)) with 1 in HX.
    assert (4503599627370496 <= Float.round_half_even (n * 2 ^ (- Z.max (0 - 52) (-1074))) d)
      by (apply round_half_even_ge; [lia|]; change (2 ^ _) with 4503599627370496; lia).
    change (2 ^ (-54 - _)) with 1. change (2 ^ (Z.max (0 - 52) (-1074) - _)) with 4. lia.
  - change (2 ^ (- -1)) with 2 in HX.
    assert (4503599627370496 <= Float.round_half_even (n * 2 ^ (- Z.max (-1 - 52) (-1074))) d)
      by (apply round_half_even_ge; [lia|]; change (2 ^ _) with 9007199254740992; lia).
    change (2 ^ (-54 - _)) with 1. change (2 ^ (Z.max (-1 - 52) (-1074) - _)) with 2. lia.
  - change (2 ^ (-54 - _)) with 1. change (2 ^ (Z.max (-2 - 52) (-1074) - _)) with 1.
    rewrite !Z.mul_1_r. apply round_half_even_ge; [lia|].
    change (2 ^ _) with 18014398509481984. lia.
Qed.

(** X1. For every positive capacity, however large, and every occupied count
    within it, [get_status] returns a status; it is Available whenever at
    least three tenths of the spaces are free, and Full when none is. *)
Theorem get_status_any_capacity (lot : ParkingLot) :
  0 < _total_spaces lot ->
  0 <= _occupied_spaces lot <= _total_spaces lot ->
  (exists s, get_status lot = Ret s) /\
  (3 * _total_spaces lot <= 10 * available_spaces lot ->
   get_status lot = Ret AVAILABLE) /\
  (available_spaces lot = 0 -> get_status lot = Ret FULL).
Proof.
  intros HC Hocc.
  destruct (Z.eq_dec (available_spaces lot) 0) as [H0|Hne].
  - pose proof (get_status_zero lot ltac:(lia) H0) as Hz.
    split; [eauto|]. split; [intros; lia|intros; exact Hz].
  - assert (Hav : 0 < available_spaces lot <= _total_spaces lot)
      by (unfold available_spaces in *; lia).
    destruct (true_divide_fraction _ _ Hav) as (f & Hf & Hge).
    unfold get_status. rewrite Hf.
    split; [|split; [intros H; rewrite (Hge H); reflexivity|intros; lia]].
    repeat match goal with |- context [if ?c then _ else _] => destruct c end; eauto.
Qed.

Lemma get_status_any_capacity_witness :
  get_status (mk_ParkingLot "X" "Lot X" (10 ^ 30) (10 ^ 29) "Open" 1) = Ret AVAILABLE.
Proof.
  apply (proj1 (proj2 (get_status_any_capacity
           (mk_ParkingLot "X" "Lot X" (10 ^ 30) (10 ^ 29) "Open" 1)
           ltac:(cbn; lia) ltac:(cbn; lia)))).
  vm_compute. discriminate.
Defined.

(** X2. A lot of capacity 0 has no status and no colour: the division raises. *)
Theorem get_status_zero_capacity (lot : ParkingLot) :
  _total_spaces lot = 0 ->
  get_status lot = Raise ZeroDivisionError /\
  get_status_color lot = Raise ZeroDivisionError.
Proof.
  intros H0. assert (Hs : get_status lot = Raise ZeroDivisionError).
  { unfold get_status, Float.true_divide. rewrite H0. reflexivity. }
  split; [exact Hs|]. unfold get_status_color. rewrite Hs. reflexivity.
Qed.

Lemma get_status_zero_capacity_witness :
  get_status_color (update_occupancy (new_ParkingLot "0" "Lot 0" 0 "Open" 1) 5)
  = Raise ZeroDivisionError.
Proof.
  apply (proj2 (get_status_zero_capacity
           (update_occupancy (new_ParkingLot "0" "Lot 0" 0 "Open" 1) 5) eq_refl)).
Defined.

Lemma get_status_classified (lot : ParkingLot) :
  0 < _total_spaces lot <= 2 ^ 51 ->
  0 <= _occupied_spaces lot <= _total_spaces lot ->
  get_status lot = Ret (classify_exact (_occupied_spaces lot) (_total_spaces lot)).
Proof.
  intros HC Hocc. unfold classify_exact. fold (available_spaces lot).
  destruct (Z.eq_dec (available_spaces lot) 0) as [H0|Hne].
  - rewrite get_status_zero by lia. rewrite H0.
    destruct (Z.leb_spec (3 * _total_spaces lot) (10 * 0)); [lia|]. reflexivity.
  - assert (Hav : 0 < available_spaces lot <= _total_spaces lot)
      by (unfold available_spaces in *; lia).
    destruct (true_divide_ratio _ _ Hav (proj2 HC)) as (f & Hf & Hge & Hgt).
    unfold get_status. rewrite Hf, Hge, Hgt.
    destruct (Z.leb_spec (3 * _total_spaces lot) (10 * available_spaces lot));
      [reflexivity|].
    destruct (Z.ltb_spec 0 (available_spaces lot)); [reflexivity|lia].
Qed.

(** X3. The colour of a lot of capacity up to [2^51] is green when at least
    three tenths of its spaces are free, orange when fewer but some are,
    and red when none is. *)
Theorem get_status_color_by_ratio (lot : ParkingLot) :
  0 < _total_spaces lot <= 2 ^ 51 ->
  0 <= _occupied_spaces lot <= _total_spaces lot ->
  get_status_color lot =
    Ret (if 3 * _total_spaces lot <=? 10 * available_spaces lot then "#4CAF50"
         else if 0 <? available_spaces lot then "#FFA726"
         else "#EF5350").
Proof.
  intros HC Hocc. unfold get_status_color.
  rewrite (get_status_classified lot HC Hocc).
  unfold classify_exact. fold (available_spaces lot).
  destruct (3 * _total_spaces lot <=? 10 * available_spaces lot); [reflexivity|].
  destruct (0 <? available_spaces lot); reflexivity.
Qed.

Lemma get_status_color_by_ratio_witness :
  get_status_color (update_occupancy (new_ParkingLot "17" "Lot 17" 35 "Student" 2) 32)
  = Ret "#FFA726".
Proof.
  exact (get_status_color_by_ratio
    (update_occupancy (new_ParkingLot "17" "Lot 17" 35 "Student" 2) 32)
    ltac:(cbn; lia) ltac:(cbn; lia)).
Defined.

(** *** Writing and finding lots *)

Lemma update_occupancy_fixed lot n : fixed (update_occupancy lot n) = fixed lot.
Proof. reflexivity. Qed.

Lemma update_occupancy_same_fixed a b n :
  fixed a = fixed b -> update_occupancy a n = update_occupancy b n.
Proof.
  destruct a, b. unfold fixed, update_occupancy. cbn.
  intros [= -> -> -> -> ->]. reflexivity.
Qed.

(** X4. [update_occupancy] overwrites: of two successive writes only the second
    counts, a value within the capacity is stored as it is, and on a lot of
    negative capacity every write stores 0. *)
Theorem update_occupancy_overwrites (lot : ParkingLot) (m n : Z) :
  update_occupancy (update_occupancy lot m) n = update_occupancy lot n /\
  (0 <= n <= _total_spaces lot -> _occupied_spaces (update_occupancy lot n) = n) /\
  (_total_spaces lot < 0 -> _occupied_spaces (update_occupancy lot n) = 0) /\
  update_occupancy lot (_occupied_spaces (update_occupancy lot n))
  = update_occupancy lot n.
Proof.
  split; [reflexivity|]. unfold update_occupancy; cbn [_occupied_spaces _total_spaces].
  split; [intros; lia|]. split; [intros; lia|].
  f_equal. lia.
Qed.

Lemma update_occupancy_overwrites_witness :
  _occupied_spaces
    (update_occupancy (new_ParkingLot "17" "Lot 17" 35 "Student" 2) 12) = 12.
Proof.
  apply (proj1 (proj2 (update_occupancy_overwrites
           (new_ParkingLot "17" "Lot 17" 35 "Student" 2) 0 12))).
  cbn. lia.
Defined.

Lemma lot_by_id_Some lots k lot :
  lot_by_id lots k = Some lot -> _lot_id lot = k /\ lot ∈ lots.
Proof.
  induction lots as [|x lots IH]; cbn; [discriminate|].
  destruct (String.eqb_spec (_lot_id x) k) as [Hx|Hx].
  - intros [= <-]. split; [exact Hx|left].
  - intros H. destruct (IH H) as [H1 H2]. split; [exact H1|right; exact H2].
Qed.

Lemma lot_by_id_None lots k :
  lot_by_id lots k = None <-> k ∉ map _lot_id lots.
Proof.
  induction lots as [|x lots IH]; cbn.
  - split; [intros _ H; inversion H|reflexivity].
  - rewrite not_elem_of_cons.
    destruct (String.eqb_spec (_lot_id x) k) as [Hx|Hx].
    + split; [discriminate|]. intros [Hne _]. congruence.
    + rewrite IH. split; [intros H; split; [congruence|exact H]|intros [_ H]; exact H].
Qed.

(** X5. [get_lot_by_id] returns the first lot carrying the id, and [None]
    exactly when no lot of the system carries it. *)
Theorem get_lot_by_id_finds (sys : ParkingSystem) (k : string) :
  (forall lot, get_lot_by_id sys k = Some lot ->
     _lot_id lot = k /\
     exists i, get_all_lots sys !! i = Some lot /\
               forall j other, (j < i)%nat -> get_all_lots sys !! j = Some other ->
                               _lot_id other <> k) /\
  (get_lot_by_id sys k = None <-> k ∉ map _lot_id (get_all_lots sys)) /\
  (k ∈ map _lot_id (get_all_lots sys) -> exists lot, get_lot_by_id sys k = Some lot).
Proof.
  unfold get_lot_by_id, get_all_lots. split; [|split].
  - generalize (_lots sys) as lots.
    induction lots as [|x lots IH]; cbn; intros lot; [discriminate|].
    destruct (String.eqb_spec (_lot_id x) k) as [Hx|Hx].
    + intros [= <-]. split; [exact Hx|]. exists 0%nat. split; [reflexivity|].
      intros j other Hj. lia.
    + intros H. destruct (IH lot H) as (Hid & i & Hi & Hfirst).
      split; [exact Hid|]. exists (S i). split; [exact Hi|].
      intros [|j] other Hj Hother.
      * cbn in Hother. injection Hother as <-. exact Hx.
      * cbn in Hother. apply (Hfirst j other); [lia|exact Hother].
  - apply lot_by_id_None.
  - intros Hin. destruct (lot_by_id (_lots sys) k) as [lot|] eqn:H; [eauto|].
    apply lot_by_id_None in H. contradiction.
Qed.

Lemma get_lot_by_id_finds_witness :
  exists lot, get_lot_by_id new_ParkingSystem "19" = Some lot.
Proof.
  apply (proj2 (proj2 (get_lot_by_id_finds new_ParkingSystem "19"))).
  cbn. do 2 right. left.
Defined.

(** *** The access policy beyond the table *)

(** X6. Whoever the requester is, a lot whose permit string is none of the four
    the code knows (the comparison is case sensitive) admits nobody and is
    never recommended; and whatever a Visitor may use, a Student and a
    member of Staff may use as well. *)
Theorem can_user_park_edges (sys : ParkingSystem) :
  (forall lot r,
     _permit_type lot <> "Open" -> _permit_type lot <> "Both" ->
     _permit_type lot <> "Student" -> _permit_type lot <> "Staff" ->
     can_user_park lot r = false /\ lot ∉ get_recommended_lots sys r) /\
  (forall lot, can_user_park lot VISITOR = true ->
               can_user_park lot STUDENT = true /\ can_user_park lot STAFF = true) /\
  sublist (get_recommended_lots sys VISITOR) (get_recommended_lots sys STUDENT) /\
  sublist (get_recommended_lots sys VISITOR) (get_recommended_lots sys STAFF).
Proof.
  assert (Hvis : forall lot, can_user_park lot VISITOR = true ->
                 can_user_park lot STUDENT = true /\ can_user_park lot STAFF = true).
  { intros lot. unfold can_user_park.
    repeat match goal with |- context [if ?c then _ else _] => destruct c end;
      cbn; intros; try discriminate; split; reflexivity. }
  split; [|split; [exact Hvis|]].
  - intros lot r H1 H2 H3 H4.
    assert (Hno : can_user_park lot r = false).
    { unfold can_user_park.
      repeat match goal with
             | |- context [String.eqb ?a ?b] =>
                 destruct (String.eqb_spec a b); [contradiction|]
             end.
      reflexivity. }
    split; [exact Hno|]. unfold get_recommended_lots.
    rewrite list_elem_of_In, filter_In. intros [_ Hyes]. congruence.
  - unfold get_recommended_lots. generalize (_lots sys) as lots.
    assert (Hsub : forall (r : UserType) lots,
               (forall lot, can_user_park lot VISITOR = true ->
                            can_user_park lot r = true) ->
               sublist (List.filter (fun lot => can_user_park lot VISITOR) lots)
                       (List.filter (fun lot => can_user_park lot r) lots)).
    { intros r lots Hr. induction lots as [|x lots IH]; cbn; [constructor|].
      destruct (can_user_park x VISITOR) eqn:Hx.
      - rewrite (Hr x Hx). constructor. exact IH.
      - destruct (can_user_park x r); [constructor|]; exact IH. }
    intros lots. split; apply Hsub; intros lot Hl; apply (Hvis lot Hl).
Qed.

Lemma can_user_park_edges_witness :
  can_user_park (new_ParkingLot "20" "Lot 20" 10 "student" 1) STUDENT = false.
Proof.
  apply (proj1 (proj1 (can_user_park_edges new_ParkingSystem)
                  (new_ParkingLot "20" "Lot 20" 10 "student" 1) STUDENT
                  ltac:(discriminate) ltac:(discriminate)
                  ltac:(discriminate) ltac:(discriminate))).
Defined.

(** X7. [User.get_permitted_lots] keeps, in their order, exactly the lots of the
    list it is given that admit the user: nothing from an empty list, the
    same again when applied to its own result, piecewise on a concatenation,
    and on the lots of the system what [get_recommended_lots] returns. *)
Theorem get_permitted_lots_filters (r : UserType) (lots lots' : list ParkingLot) :
  (forall lot, lot ∈ get_permitted_lots r lots <->
               lot ∈ lots /\ can_user_park lot r = true) /\
  sublist (get_permitted_lots r lots) lots /\
  get_permitted_lots r [] = [] /\
  get_permitted_lots r (get_permitted_lots r lots) = get_permitted_lots r lots /\
  get_permitted_lots r (lots ++ lots')%list
  = (get_permitted_lots r lots ++ get_permitted_lots r lots')%list /\
  (length (get_permitted_lots r lots) <= length lots)%nat /\
  (forall sys, get_permitted_lots r (get_all_lots sys) = get_recommended_lots sys r).
Proof.
  unfold get_permitted_lots.
  split; [intros lot; rewrite !list_elem_of_In, filter_In; reflexivity|].
  split; [apply filter_sublist|]. split; [reflexivity|].
  split.
  { induction lots as [|x l IH]; cbn; [reflexivity|].
    destruct (can_user_park x r) eqn:Hx; cbn; rewrite ?Hx, IH; reflexivity. }
  split; [apply List.filter_app|].
  split; [apply List.filter_length_le|].
  intros sys. reflexivity.
Qed.

(** *** The synchronizer on any answer *)

Lemma update_by_id_fixed lots k n :
  map fixed (update_by_id lots k n) = map fixed lots.
Proof.
  induction lots as [|x lots IH]; cbn; [reflexivity|].
  destruct (_lot_id x =? k)%string; cbn; [reflexivity|]. rewrite IH. reflexivity.
Qed.

Lemma apply_lots_data_fixed lots_data lots :
  map fixed (fst (apply_lots_data lots lots_data)) = map fixed lots.
Proof.
  revert lots. induction lots_data as [|d rest IH]; intros lots; cbn; [reflexivity|].
  destruct (ld_lot_id d) as [k|]; [|reflexivity].
  destruct (lot_by_id lots k); [|apply IH].
  destruct (ld_occupied_spaces d) as [n|]; [|reflexivity].
  rewrite IH. apply update_by_id_fixed.
Qed.

Lemma update_by_id_bounds lots k n :
  Forall in_bounds lots -> Forall in_bounds (update_by_id lots k n).
Proof.
  induction 1 as [|x lots Hx Hl IH]; cbn; [constructor|].
  destruct (_lot_id x =? k)%string; constructor; try assumption.
  unfold in_bounds, update_occupancy in *. cbn. lia.
Qed.

Lemma apply_lots_data_bounds lots_data lots :
  Forall in_bounds lots -> Forall in_bounds (fst (apply_lots_data lots lots_data)).
Proof.
  revert lots. induction lots_data as [|d rest IH]; intros lots Hl; cbn; [exact Hl|].
  destruct (ld_lot_id d) as [k|]; [|exact Hl].
  destruct (lot_by_id lots k); [|apply IH, Hl].
  destruct (ld_occupied_spaces d) as [n|]; [|exact Hl].
  apply IH, update_by_id_bounds, Hl.
Qed.

Section AnyGenerator.

Context {rng : Type} (randint : Z -> Z -> rng -> Z * rng).

Lemma simulate_fixed lots g :
  map fixed (fst (simulate randint lots g)) = map fixed lots.
Proof.
  revert g. induction lots as [|x lots IH]; intros g; cbn [simulate]; [reflexivity|].
  destruct (if (_lot_id x =? "17")%string then randint 28 35 g
            else if (_lot_id x =? "18")%string then randint 40 45 g
            else if (_lot_id x =? "19")%string then randint 45 60 g
            else randint 15 40 g) as [n g1].
  specialize (IH g1). destruct (simulate randint lots g1) as [rest' g2].
  cbn in *. rewrite IH. reflexivity.
Qed.

Lemma simulate_bounds lots g :
  Forall (fun lot => 0 <= _total_spaces lot) lots ->
  Forall in_bounds (fst (simulate randint lots g)).
Proof.
  intros Hl. revert g. induction Hl as [|x lots Hx Hl IH]; intros g;
    cbn [simulate]; [constructor|].
  destruct (if (_lot_id x =? "17")%string then randint 28 35 g
            else if (_lot_id x =? "18")%string then randint 40 45 g
            else if (_lot_id x =? "19")%string then randint 45 60 g
            else randint 15 40 g) as [n g1].
  specialize (IH g1). destruct (simulate randint lots g1) as [rest' g2].
  cbn in *. constructor; [|exact IH].
  unfold in_bounds, update_occupancy. cbn. lia.
Qed.

(** The synthetic counts depend on the lots' fixed fields only. *)
Lemma simulate_same_fixed lots lots' g :
  map fixed lots' = map fixed lots ->
  simulate randint lots' g = simulate randint lots g.
Proof.
  revert lots' g. induction lots as [|x lots IH]; intros [|y lots'] g Hfix;
    try discriminate; [reflexivity|].
  cbn [map] in Hfix.
  assert (Hxy : fixed y = fixed x) by congruence.
  assert (Hrest : map fixed lots' = map fixed lots) by congruence.
  assert (Hid : _lot_id y = _lot_id x) by (unfold fixed in Hxy; congruence).
  cbn [simulate]. rewrite Hid.
  destruct (if (_lot_id x =? "17")%string then randint 28 35 g
            else if (_lot_id x =? "18")%string then randint 40 45 g
            else if (_lot_id x =? "19")%string then randint 45 60 g
            else randint 15 40 g) as [n g1].
  rewrite (IH lots' g1 Hrest). destruct (simulate randint lots g1) as [rest' g2].
  rewrite (update_occupancy_same_fixed y x n Hxy). reflexivity.
Qed.

Lemma refresh_data_fixed sys f g :
  map fixed (_lots (snd (fst (refresh_data randint sys f g)))) = map fixed (_lots sys).
Proof.
  assert (Hsim : forall s, map fixed (_lots s) = map fixed (_lots sys) ->
            map fixed (_lots (snd (fst (simulated randint s g)))) = map fixed (_lots sys)).
  { intros s Hs. unfold simulated.
    pose proof (simulate_fixed (_lots s) g) as H.
    destruct (simulate randint (_lots s) g) as [lots' g']. cbn in *. congruence. }
  destruct f as [|status_code [lots_data|]]; cbn [refresh_data].
  - apply Hsim. reflexivity.
  - destruct (status_code =? 200); [|reflexivity].
    pose proof (apply_lots_data_fixed lots_data (_lots sys)) as H.
    destruct (apply_lots_data (_lots sys) lots_data) as [lots' [|]]; cbn in H.
    + exact H.
    + apply Hsim. exact H.
  - destruct (status_code =? 200); [|reflexivity]. apply Hsim. reflexivity.
Qed.

(** X8. Whatever the fetch delivers and whatever the generator draws,
    [refresh_data] keeps the lots, their order and their id, name,
    capacity, permit type and drive time; so the lots recommended to a
    requester are the same lots before and after, only their counts move. *)
Theorem refresh_data_keeps_lots sys f g (r : UserType) :
  let sys' := snd (fst (refresh_data randint sys f g)) in
  map fixed (get_all_lots sys') = map fixed (get_all_lots sys) /\
  length (get_all_lots sys') = length (get_all_lots sys) /\
  map fixed (get_recommended_lots sys' r) = map fixed (get_recommended_lots sys r).
Proof.
  intros sys'. pose proof (refresh_data_fixed sys f g) as Hfix. fold sys' in Hfix.
  unfold get_all_lots, get_recommended_lots.
  split; [exact Hfix|]. split.
  - rewrite <- (length_map fixed (_lots sys')), Hfix. apply length_map.
  - revert Hfix. generalize (_lots sys') as l'. generalize (_lots sys) as l.
    induction l as [|x l IH]; intros [|y l'] Hfix; try discriminate; [reflexivity|].
    cbn [map] in Hfix.
    assert (Hxy : fixed y = fixed x) by congruence.
    assert (Hrest : map fixed l' = map fixed l) by congruence.
    cbn [List.filter].
    assert (Hp : can_user_park y r = can_user_park x r).
    { unfold can_user_park. replace (_permit_type y) with (_permit_type x)
        by (unfold fixed in Hxy; congruence). reflexivity. }
    rewrite Hp. destruct (can_user_park x r); cbn; rewrite ?Hxy, (IH l' Hrest);
      reflexivity.
Qed.

(** X9. Counts that lie within their capacities still do after [refresh_data],
    whatever the server reports and whatever the generator draws. *)
Theorem refresh_data_keeps_bounds sys f g :
  Forall in_bounds (_lots sys) ->
  Forall in_bounds (_lots (snd (fst (refresh_data randint sys f g)))).
Proof.
  intros Hb.
  assert (Hsim : forall s, Forall (fun lot => 0 <= _total_spaces lot) (_lots s) ->
            Forall in_bounds (_lots (snd (fst (simulated randint s g))))).
  { intros s Hs. unfold simulated.
    pose proof (simulate_bounds (_lots s) g Hs) as H.
    destruct (simulate randint (_lots s) g) as [lots' g']. exact H. }
  assert (Hcap : forall l, Forall in_bounds l ->
                           Forall (fun lot => 0 <= _total_spaces lot) l).
  { intros l Hl. eapply Forall_impl; [exact Hl|].
    unfold in_bounds. cbn. intros; lia. }
  destruct f as [|status_code [lots_data|]]; cbn [refresh_data].
  - apply Hsim, Hcap, Hb.
  - destruct (status_code =? 200); [|exact Hb].
    pose proof (apply_lots_data_bounds lots_data (_lots sys) Hb) as H.
    destruct (apply_lots_data (_lots sys) lots_data) as [lots' [|]]; cbn in H.
    + exact H.
    + apply Hsim. cbn. apply Hcap, H.
  - destruct (status_code =? 200); [|exact Hb]. apply Hsim, Hcap, Hb.
Qed.

(** X10. An answer whose entries cannot all be read (a missing [lot_id], or a
    missing [occupied_spaces] for a known lot) has the same effect as a
    request that failed: the counts already taken from it are overwritten
    by the synthetic ones. *)
Theorem refresh_data_unreadable_entry sys lots_data g :
  snd (apply_lots_data (_lots sys) lots_data) = false ->
  refresh_data randint sys (Response 200 (Some lots_data)) g
  = refresh_data randint sys RequestRaised g.
Proof.
  intros Hbad. cbn [refresh_data]. change (200 =? 200) with true. cbv iota.
  pose proof (apply_lots_data_fixed lots_data (_lots sys)) as Hfix.
  destruct (apply_lots_data (_lots sys) lots_data) as [lots' ok].
  cbn in Hbad, Hfix. subst ok.
  unfold simulated. cbn [_lots]. rewrite (simulate_same_fixed _ _ g Hfix).
  reflexivity.
Qed.

End AnyGenerator.

Lemma refresh_data_keeps_bounds_witness :
  Forall in_bounds
    (_lots (snd (fst (refresh_data least_randint new_ParkingSystem
                        (Response 200 (Some [mk_lot_data (Some "17") (Some 99)])) tt)))).
Proof.
  apply (refresh_data_keeps_bounds least_randint).
  repeat constructor; cbn; lia.
Defined.

Lemma refresh_data_unreadable_entry_witness :
  refresh_data least_randint new_ParkingSystem
    (Response 200 (Some [mk_lot_data (Some "17") (Some 3); mk_lot_data None (Some 4)])) tt
  = refresh_data least_randint new_ParkingSystem RequestRaised tt.
Proof.
  apply (refresh_data_unreadable_entry least_randint). reflexivity.
Defined.

(** *** A readable answer, entry by entry *)

Lemma update_by_id_map lots k n :
  NoDup (map _lot_id lots) ->
  update_by_id lots k n
  = map (fun lot => if (_lot_id lot =? k)%string then update_occupancy lot n else lot)
        lots.
Proof.
  induction lots as [|x lots IH]; cbn [map update_by_id]; intros Hnd; [reflexivity|].
  apply NoDup_cons in Hnd as [Hx Hnd].
  destruct (String.eqb_spec (_lot_id x) k) as [Hk|Hk].
  - f_equal. rewrite <- (map_id lots) at 1. apply map_ext_in.
    intros y Hy. destruct (String.eqb_spec (_lot_id y) k) as [Hyk|]; [|reflexivity].
    exfalso. apply Hx. rewrite Hk, <- Hyk.
    apply list_elem_of_In, in_map, Hy.
  - f_equal. apply IH, Hnd.
Qed.

Lemma apply_lots_data_mirrors lots_data lots :
  Forall complete lots_data -> NoDup (map _lot_id lots) ->
  apply_lots_data lots lots_data = (map (mirrored lots_data) lots, true).
Proof.
  intros Hc. revert lots. induction Hc as [|d rest [[k Hk] [n Hn]] Hc IH];
    intros lots Hnd; cbn [apply_lots_data].
  - f_equal. symmetry. apply map_id.
  - rewrite Hk.
    assert (Hlast : forall lot,
              last_reported (_lot_id lot) (d :: rest)
              = match last_reported (_lot_id lot) rest with
                | Some v => Some v
                | None => if (_lot_id lot =? k)%string then Some n else None
                end).
    { intros lot. cbn [last_reported]. rewrite Hk, Hn, (String.eqb_sym k).
      reflexivity. }
    destruct (lot_by_id lots k) as [found|] eqn:Hfound.
    + assert (Hids : map _lot_id (update_by_id lots k n) = map _lot_id lots).
      { pose proof (update_by_id_fixed lots k n) as Hf.
        apply (f_equal (map (fun t => fst (fst (fst (fst t)))))) in Hf.
        rewrite !map_map in Hf. exact Hf. }
      rewrite Hn, IH by (rewrite Hids; exact Hnd).
      f_equal. rewrite (update_by_id_map lots k n Hnd), map_map.
      apply map_ext. intros lot. unfold mirrored. rewrite Hlast.
      destruct (String.eqb_spec (_lot_id lot) k) as [Hl|Hl];
        cbn [update_occupancy _lot_id];
        destruct (last_reported (_lot_id lot) rest); reflexivity.
    + rewrite (IH lots Hnd). f_equal. apply map_ext_in. intros lot Hin.
      unfold mirrored. rewrite Hlast.
      destruct (last_reported (_lot_id lot) rest); [reflexivity|].
      destruct (String.eqb_spec (_lot_id lot) k) as [Hl|]; [|reflexivity].
      exfalso. apply lot_by_id_None in Hfound. apply Hfound. rewrite <- Hl.
      apply list_elem_of_In, in_map, Hin.
Qed.

Section Mirror.

Context {rng : Type} (randint : Z -> Z -> rng -> Z * rng).

(** X11. When every entry of a 200 answer carries both keys and the lots have
    distinct ids, [refresh_data] reports [True], is connected, and each lot
    holds the clamped count of the last entry with its id; a lot the answer
    does not mention keeps its count, an entry for an id the client does not
    have is skipped, and no draw is made. *)
Theorem refresh_data_last_entry_wins sys lots_data g :
  Forall complete lots_data ->
  NoDup (map _lot_id (_lots sys)) ->
  refresh_data randint sys (Response 200 (Some lots_data)) g
  = (Some true, mk_ParkingSystem (map (mirrored lots_data) (_lots sys)) true, g).
Proof.
  intros Hc Hnd. cbn [refresh_data]. change (200 =? 200) with true. cbv iota.
  rewrite (apply_lots_data_mirrors lots_data (_lots sys) Hc Hnd). reflexivity.
Qed.

Hypothesis randint_range :
  forall a b g, a <= b -> a <= fst (randint a b g) <= b.

(** X12. On synthetic counts the catalog never shows lot 17, 18 or 19 as
    Available and never shows lot 14 as Full. *)
Theorem fallback_statuses sys g lot :
  catalog_shaped (_lots sys) ->
  lot ∈ _lots (snd (fst (refresh_data randint sys RequestRaised g))) ->
  if (_lot_id lot =? "14")%string
  then get_status lot = Ret AVAILABLE \/ get_status lot = Ret LIMITED
  else get_status lot = Ret LIMITED \/ get_status lot = Ret FULL.
Proof.
  intros Hshape Hin.
  pose proof (refresh_data_fallback randint randint_range sys RequestRaised g
                Hshape (or_introl eq_refl)) as H.
  destruct (refresh_data randint sys RequestRaised g) as [[res sys'] g'].
  cbn [fst snd] in Hin. destruct H as (_ & _ & Hshape' & Hrange).
  unfold catalog_shaped in Hshape'.
  destruct (_lots sys') as [|l1 [|l2 [|l3 [|l4 [|? ?]]]]]; try discriminate Hshape'.
  cbn [map] in Hshape'.
  injection Hshape' as H1a H1b H2a H2b H3a H3b H4a H4b.
  repeat match goal with
         | H : Forall _ (_ :: _) |- _ => apply Forall_cons in H as [? H]
         end.
  assert (Hpow : 2 ^ 51 = 2251799813685248) by reflexivity.
  repeat (apply elem_of_cons in Hin as [-> | Hin]); [| | | |inversion Hin].
  - rewrite H1a in *. cbn in *.
    rewrite get_status_classified by lia. unfold classify_exact. rewrite H1b.
    repeat match goal with |- context [if ?c then _ else _] =>
      let E := fresh in destruct c eqn:E end; auto; lia.
  - rewrite H2a in *. cbn in *.
    rewrite get_status_classified by lia. unfold classify_exact. rewrite H2b.
    repeat match goal with |- context [if ?c then _ else _] =>
      let E := fresh in destruct c eqn:E end; auto; lia.
  - rewrite H3a in *. cbn in *.
    rewrite get_status_classified by lia. unfold classify_exact. rewrite H3b.
    repeat match goal with |- context [if ?c then _ else _] =>
      let E := fresh in destruct c eqn:E end; auto; lia.
  - rewrite H4a in *. cbn in *.
    rewrite get_status_classified by lia. unfold classify_exact. rewrite H4b.
    repeat match goal with |- context [if ?c then _ else _] =>
      let E := fresh in destruct c eqn:E end; auto; lia.
Qed.

End Mirror.

Lemma refresh_data_last_entry_wins_witness :
  map _occupied_spaces
    (_lots (snd (fst (refresh_data least_randint new_ParkingSystem
       (Response 200 (Some [ mk_lot_data (Some "18") (Some 7);
                             mk_lot_data (Some "99") (Some 1);
                             mk_lot_data (Some "18") (Some 50) ])) tt))))
  = [0; 45; 0; 0].
Proof.
  rewrite (refresh_data_last_entry_wins least_randint new_ParkingSystem).
  - reflexivity.
  - repeat constructor; eauto.
  - apply (bool_decide_unpack _). vm_compute. exact I.
Defined.

Lemma fallback_statuses_witness :
  get_status (update_occupancy (new_ParkingLot "17" "Lot 17" 35 "Student" 2) 28)
  = Ret LIMITED \/
  get_status (update_occupancy (new_ParkingLot "17" "Lot 17" 35 "Student" 2) 28)
  = Ret FULL.
Proof.
  apply (fallback_statuses least_randint ServerFacts.least_randint_range new_ParkingSystem tt
           (update_occupancy (new_ParkingLot "17" "Lot 17" 35 "Student" 2) 28)).
  - reflexivity.
  - cbn. left.
Defined.

End ClientExtras.

(** ** Further properties of the server *)

Module ServerExtras.

Import Server ServerFacts.

(** *** Reading *)

Lemma store_get_NoDup k l s :
  NoDup (map fst s) -> (k, l) ∈ s -> store_get k s = Some l.
Proof.
  induction s as [|[k' v] s IH]; cbn [map fst store_get]; intros Hnd Hin.
  - inversion Hin.
  - apply NoDup_cons in Hnd as [Hk' Hnd].
    apply elem_of_cons in Hin as [[= -> ->]|Hin].
    + rewrite String.eqb_refl. reflexivity.
    + destruct (String.eqb_spec k' k) as [->|_]; [|apply IH; assumption].
      exfalso. apply Hk'. apply list_elem_of_In.
      apply (in_map fst s (k, l)), list_elem_of_In, Hin.
Qed.

Lemma summarize_found now k l st :
  store_get k (PARKING_LOTS st) = Some l ->
  summarize now k l st = (Ret (summary_of now l), st).
Proof. intros H. run_with H. reflexivity. Qed.

Lemma get_all_lots_summaries now st :
  NoDup (map fst (PARKING_LOTS st)) ->
  get_all_lots now st
  = (Ret (mk_response 200
            (Lots (map (fun kv => summary_of now (snd kv)) (PARKING_LOTS st)))),
     st).
Proof.
  intros Hnd. unfold get_all_lots.
  assert (Hitems : forall items,
            (forall k l, (k, l) ∈ items -> store_get k (PARKING_LOTS st) = Some l) ->
            summarize_items now items st
            = (Ret (map (fun kv => summary_of now (snd kv)) items), st)).
  { induction items as [|[k l] items IH]; intros Hin; [reflexivity|].
    cbn [summarize_items]. unfold bind at 1.
    rewrite (summarize_found now k l st) by (apply Hin; left).
    unfold bind at 1. rewrite IH by (intros k0 l0 H0; apply Hin; right; exact H0).
    reflexivity. }
  unfold bind. rewrite Hitems; [reflexivity|].
  intros k l. apply store_get_NoDup, Hnd.
Qed.

(** X13. [get_all_lots] answers 200 with one entry per lot, in the order of the
    dictionary, each with the lot's fields, its number of occupied spaces
    and the rest of its capacity as available; it changes nothing.  So does
    [get_lot] for a known lot, with the bitmap beside the entry.  (The
    [last_update] of the entries is left aside.) *)
Theorem get_all_lots_lists_every_lot now st :
  NoDup (map fst (PARKING_LOTS st)) ->
  (exists xs,
     get_all_lots now st = (Ret (mk_response 200 (Lots xs)), st) /\
     map entry_fields xs = map (fun kv => lot_fields (snd kv)) (PARKING_LOTS st)) /\
  forall k l, store_get k (PARKING_LOTS st) = Some l ->
    exists s,
      get_lot now k st = (Ret (mk_response 200 (Lot s (spaces l))), st) /\
      entry_fields s = lot_fields l.
Proof.
  intros Hnd. split.
  - eexists. split; [apply get_all_lots_summaries, Hnd|].
    rewrite map_map. apply map_ext. intros kv. reflexivity.
  - intros k l H. eexists. split; [apply get_lot_found, H|]. reflexivity.
Qed.

Lemma get_all_lots_lists_every_lot_witness :
  exists xs, get_all_lots "now" startup = (Ret (mk_response 200 (Lots xs)), startup) /\
             map s_available_spaces xs = [35; 45; 60; 50].
Proof.
  destruct (proj1 (get_all_lots_lists_every_lot "now" startup
                     ltac:(apply (bool_decide_unpack _); vm_compute; exact I)))
    as (xs & Hxs & Hfields).
  exists xs. split; [exact Hxs|].
  apply (f_equal (map (fun t => snd (fst (fst (fst t)))))) in Hfields.
  rewrite !map_map in Hfields. exact Hfields.
Defined.

Lemma counts_found k st l :
  store_get k (PARKING_LOTS st) = Some l ->
  get_occupied_count k st = (Ret (sum (spaces l)), st) /\
  get_available_count k st = (Ret (total_spaces l - sum (spaces l)), st).
Proof. intros H. split; run_with H; reflexivity. Qed.

(** X14. For a known lot with one space per unit of capacity the occupied count
    is the number of occupied spaces, it lies between 0 and the capacity,
    and so does the available count, which is the rest; for a key that is
    not in the dictionary both helpers raise [KeyError]. *)
Theorem counts_within_capacity k st :
  (forall l, store_get k (PARKING_LOTS st) = Some l -> wf_lot l ->
     get_occupied_count k st = (Ret (sum (spaces l)), st) /\
     get_available_count k st = (Ret (total_spaces l - sum (spaces l)), st) /\
     0 <= sum (spaces l) <= total_spaces l /\
     0 <= total_spaces l - sum (spaces l) <= total_spaces l /\
     (sum (spaces l) = 0 <-> forall i b, spaces l !! i = Some b -> b = false)) /\
  (store_get k (PARKING_LOTS st) = None ->
     get_occupied_count k st = (Raise KeyError, st) /\
     get_available_count k st = (Raise KeyError, st)).
Proof.
  split.
  - intros l H Hwf. pose proof (sum_bounds (spaces l)) as Hb.
    unfold wf_lot in Hwf.
    split; [run_with H; reflexivity|]. split; [run_with H; reflexivity|].
    split; [lia|]. split; [lia|].
    clear Hwf Hb. induction (spaces l) as [|x sp IH].
    + split; [intros _ i b Hi; discriminate Hi|reflexivity].
    + rewrite sum_cons. pose proof (sum_bounds sp) as Hb. split.
      * intros Hs [|i] b Hi; cbn in Hi.
        -- injection Hi as <-. destruct x; [cbn in Hs; lia|reflexivity].
        -- apply (proj1 IH ltac:(destruct x; cbn in Hs; lia) i b Hi).
      * intros Hall. rewrite (Hall 0%nat x eq_refl). cbn [Z.b2z].
        rewrite (proj2 IH); [reflexivity|].
        intros i b Hi. apply (Hall (S i) b Hi).
  - intros H. split; run_with H; reflexivity.
Qed.

Lemma counts_within_capacity_witness :
  get_available_count "19" startup = (Ret 60, startup) /\
  get_occupied_count "99" startup = (Raise KeyError, startup).
Proof.
  split.
  - apply (proj1 (proj2 (proj1 (counts_within_capacity "19" startup)
             (mk_lot "19" "Lot 19" 60 "Both" 2 5 (replicate 60 false))
             eq_refl eq_refl))).
  - apply (proj1 (proj2 (counts_within_capacity "99" startup) eq_refl)).
Defined.

(** *** Mutating *)

(** X15. Toggling a valid space of a known lot with one space per unit of
    capacity moves the occupied count by exactly one, up when the space was
    empty and down when it was occupied, and the answer reports the new
    state of the space and the new counts. *)
Theorem toggle_space_moves_count_by_one fs k i st l :
  store_get k (PARKING_LOTS st) = Some l ->
  0 <= i < total_spaces l ->
  wf_lot l ->
  exists b : bool,
    spaces l !! Z.to_nat i = Some b /\
    let c := sum (spaces l) + (if b then -1 else 1) in
    fst (get_occupied_count k (snd (toggle_space fs k i st))) = Ret c /\
    fst (get_available_count k (snd (toggle_space fs k i st)))
    = Ret (total_spaces l - c) /\
    0 <= c <= total_spaces l /\
    fst (toggle_space true k i st)
    = Ret (mk_response 200 (Toggled k i (negb b) c (total_spaces l - c))).
Proof.
  intros H Hi Hwf. unfold wf_lot in Hwf.
  destruct (lookup_lt_is_Some_2 (spaces l) (Z.to_nat i) ltac:(lia)) as [b Hb].
  exists b. split; [exact Hb|]. intros c.
  remember (<[Z.to_nat i := negb b]> (spaces l)) as sp eqn:Hsp.
  assert (Hsum : sum sp = c).
  { subst sp c. rewrite (sum_insert _ _ _ _ Hb). destruct b; cbn; lia. }
  assert (Hst : PARKING_LOTS (snd (toggle_space fs k i st)) = spaces_set k sp st).
  { rewrite (toggle_space_flips fs k i st l b) by auto. rewrite <- Hsp.
    destruct fs; reflexivity. }
  assert (Hl : store_get k (PARKING_LOTS (snd (toggle_space fs k i st)))
               = Some (with_spaces sp l)).
  { rewrite Hst. unfold spaces_set. rewrite store_get_alter_eq, H. reflexivity. }
  destruct (counts_found k _ _ Hl) as [-> ->]. cbn [fst spaces total_spaces with_spaces].
  rewrite Hsum. split; [reflexivity|]. split; [reflexivity|].
  split.
  { pose proof (sum_bounds sp) as Hbd. rewrite Hsp, length_insert in Hbd.
    rewrite <- Hsp in Hbd. lia. }
  rewrite (toggle_space_flips true k i st l b) by auto.
  cbn [fst]. rewrite <- Hsp, Hsum. reflexivity.
Qed.

Lemma toggle_space_moves_count_by_one_witness :
  fst (toggle_space true "18" 44 startup)
  = Ret (mk_response 200 (Toggled "18" 44 true 1 44)).
Proof.
  destruct (toggle_space_moves_count_by_one true "18" 44 startup
              (mk_lot "18" "Lot 18" 45 "Staff" 1 3 (replicate 45 false))
              eq_refl ltac:(cbn; lia) eq_refl) as (b & Hb & _ & _ & _ & Hr).
  cbn in Hb. injection Hb as <-. exact Hr.
Defined.

(** X16. [reset_lot] and [fill_lot] write the whole bitmap of a known lot of
    capacity at least 0: afterwards no space, respectively every space, is
    occupied, whatever was there before and whether or not the file could
    be written; so the later of two such operations decides. *)
Theorem reset_and_fill_overwrite fs fs' k st l :
  store_get k (PARKING_LOTS st) = Some l ->
  0 <= total_spaces l ->
  let cleared := snd (reset_lot fs k st) in
  let filled := snd (fill_lot fs k st) in
  store_get k (PARKING_LOTS cleared)
  = Some (with_spaces (replicate (Z.to_nat (total_spaces l)) false) l) /\
  store_get k (PARKING_LOTS filled)
  = Some (with_spaces (replicate (Z.to_nat (total_spaces l)) true) l) /\
  fst (get_occupied_count k cleared) = Ret 0 /\
  fst (get_available_count k cleared) = Ret (total_spaces l) /\
  fst (get_occupied_count k filled) = Ret (total_spaces l) /\
  fst (get_available_count k filled) = Ret 0 /\
  PARKING_LOTS (snd (reset_lot fs' k filled)) = PARKING_LOTS cleared /\
  PARKING_LOTS (snd (fill_lot fs' k cleared)) = PARKING_LOTS filled /\
  PARKING_LOTS (snd (reset_lot fs' k cleared)) = PARKING_LOTS cleared.
Proof.
  intros H Htot cleared filled.
  set (T := Z.to_nat (total_spaces l)).
  assert (Hc : PARKING_LOTS cleared = spaces_set k (replicate T false) st).
  { subst cleared. rewrite (reset_lot_clears fs k st l H). destruct fs; reflexivity. }
  assert (Hf : PARKING_LOTS filled = spaces_set k (replicate T true) st).
  { subst filled. rewrite (fill_lot_fills fs k st l H). destruct fs; reflexivity. }
  assert (Hlc : store_get k (PARKING_LOTS cleared)
                = Some (with_spaces (replicate T false) l)).
  { rewrite Hc. unfold spaces_set. rewrite store_get_alter_eq, H. reflexivity. }
  assert (Hlf : store_get k (PARKING_LOTS filled)
                = Some (with_spaces (replicate T true) l)).
  { rewrite Hf. unfold spaces_set. rewrite store_get_alter_eq, H. reflexivity. }
  assert (Hover : forall b b' s,
            store_get k (PARKING_LOTS s) = Some (with_spaces (replicate T b) l) ->
            PARKING_LOTS s = spaces_set k (replicate T b) st ->
            spaces_set k (replicate T b') s = spaces_set k (replicate T b') st).
  { intros b b' s _ Hs. unfold spaces_set. rewrite Hs. unfold spaces_set.
    rewrite store_alter_alter. reflexivity. }
  split; [exact Hlc|]. split; [exact Hlf|].
  destruct (counts_found k _ _ Hlc) as [-> ->].
  destruct (counts_found k _ _ Hlf) as [-> ->].
  cbn [fst spaces total_spaces with_spaces]. rewrite !sum_replicate.
  cbn [Z.b2z]. subst T.
  split; [f_equal; lia|]. split; [f_equal; lia|].
  split; [f_equal; lia|]. split; [f_equal; lia|].
  set (T := Z.to_nat (total_spaces l)) in *.
  split; [|split].
  - rewrite (reset_lot_clears fs' k filled _ Hlf). cbn [total_spaces with_spaces].
    fold T. rewrite Hc, <- (Hover true false filled Hlf Hf).
    destruct fs'; reflexivity.
  - rewrite (fill_lot_fills fs' k cleared _ Hlc). cbn [total_spaces with_spaces].
    fold T. rewrite Hf, <- (Hover false true cleared Hlc Hc).
    destruct fs'; reflexivity.
  - rewrite (reset_lot_clears fs' k cleared _ Hlc). cbn [total_spaces with_spaces].
    fold T. rewrite Hc, <- (Hover false false cleared Hlc Hc).
    destruct fs'; reflexivity.
Qed.

Lemma reset_and_fill_overwrite_witness :
  fst (get_available_count "14" (snd (fill_lot true "14" startup))) = Ret 0.
Proof.
  apply (proj1 (proj2 (proj2 (proj2 (proj2 (proj2
    (reset_and_fill_overwrite true true "14" startup
       (mk_lot "14" "Lot 14" 50 "Open" 3 7 (replicate 50 false))
       eq_refl ltac:(cbn; lia)))))))).
Defined.

(** X17. A valid index that lies beyond the end of a bitmap shorter than the
    capacity makes [toggle_space] raise [IndexError]; nothing is changed
    and nothing is written. *)
Theorem toggle_space_beyond_bitmap fs k i st l :
  store_get k (PARKING_LOTS st) = Some l ->
  0 <= i < total_spaces l ->
  Z.of_nat (length (spaces l)) <= i ->
  toggle_space fs k i st = (Raise IndexError, st).
Proof.
  intros H Hi Hlen. apply (toggle_space_short_list fs k i st l H Hi).
  apply lookup_ge_None. lia.
Qed.

Lemma toggle_space_beyond_bitmap_witness :
  let st := mk_state [("17", mk_lot "17" "Lot 17" 35 "Student" 2 4 [true; false])] None in
  toggle_space true "17" 2 st = (Raise IndexError, st).
Proof.
  apply (toggle_space_beyond_bitmap true "17" 2 _
           (mk_lot "17" "Lot 17" 35 "Student" 2 4 [true; false]));
    [reflexivity|cbn; lia|cbn; lia].
Defined.

(** *** Randomizing, whatever the generator *)

Lemma mark_occupied_wf k idxs st :
  wf_store (PARKING_LOTS st) ->
  wf_store (PARKING_LOTS (snd (mark_occupied k idxs st))).
Proof.
  revert st. induction idxs as [|j idxs IH]; intros st Hwf; [exact Hwf|].
  cbn [mark_occupied]. run.
  destruct (store_get k (PARKING_LOTS st)) as [l|] eqn:H; [|exact Hwf].
  step H. destruct (j <? length (spaces l))%nat; [|exact Hwf]. step H.
  apply IH. cbn [PARKING_LOTS].
  apply (spaces_set_wf k _ st l Hwf H). apply length_insert.
Qed.

Section AnyGenerator.

Context {rng : Type}
  (randint : Z -> Z -> rng -> Z * rng)
  (sample : Z -> Z -> rng -> list nat * rng).

(** X18. When the count drawn for a known lot exceeds its capacity (or is
    negative), [randomize_lot] raises [ValueError] from the sampling: by
    then the bitmap has been emptied in memory, and nothing is written to
    the file. *)
Theorem randomize_lot_count_too_large fs k g st l :
  store_get k (PARKING_LOTS st) = Some l ->
  fst (drawn_count randint k g) < 0 \/
  Z.max 0 (total_spaces l) < fst (drawn_count randint k g) ->
  randomize_lot randint sample fs k g st
  = (Raise ValueError,
     mk_state (spaces_set k (replicate (Z.to_nat (total_spaces l)) false) st)
              (DATA_FILE st),
     snd (drawn_count randint k g)).
Proof.
  intros H Hn. unfold randomize_lot. rewrite H, randomize_lot_draw.
  destruct (drawn_count randint k g) as [n g1]. cbn [fst snd] in *.
  unfold set_spaces.
  destruct (Z.ltb_spec n 0), (Z.ltb_spec (Z.max 0 (total_spaces l)) n);
    try lia; reflexivity.
Qed.

Lemma randomize_lot_wf fs k g st :
  wf_store (PARKING_LOTS st) ->
  wf_store (PARKING_LOTS (snd (fst (randomize_lot randint sample fs k g st)))).
Proof.
  intros Hwf. unfold randomize_lot.
  destruct (store_get k (PARKING_LOTS st)) as [l|] eqn:H; [|exact Hwf].
  rewrite randomize_lot_draw. destruct (drawn_count randint k g) as [n g1].
  unfold set_spaces at 1. set (st1 := mk_state _ _).
  assert (Hst1 : wf_store (PARKING_LOTS st1)).
  { apply (spaces_set_wf k _ st l Hwf H). rewrite length_replicate.
    pose proof (store_get_wf k l _ Hwf H) as Hl. unfold wf_lot in Hl. lia. }
  destruct ((n <? 0) || (Z.max 0 (total_spaces l) <? n)); [exact Hst1|].
  destruct (sample (total_spaces l) n g1) as [idxs g2].
  unfold bind. pose proof (mark_occupied_wf k idxs st1 Hst1) as Hm.
  destruct (mark_occupied k idxs st1) as [[[]|e] st2]; cbn [snd] in Hm.
  - unfold save_data, ret. destruct fs; exact Hm.
  - exact Hm.
Qed.

(** X19. Every lot of the catalog holds one space per unit of capacity, and each
    of the four mutating handlers keeps that true of every lot, for every
    request, every outcome of the write and every draw; so does a restart
    from the file a handler wrote. *)
Theorem one_space_per_unit_is_kept fs k i g st :
  wf_store (PARKING_LOTS st) ->
  wf_store (PARKING_LOTS startup) /\
  wf_store (PARKING_LOTS (snd (toggle_space fs k i st))) /\
  wf_store (PARKING_LOTS (snd (reset_lot fs k st))) /\
  wf_store (PARKING_LOTS (snd (fill_lot fs k st))) /\
  wf_store (PARKING_LOTS (snd (fst (randomize_lot randint sample fs k g st)))) /\
  (DATA_FILE st = Some (PARKING_LOTS st) -> wf_store (PARKING_LOTS (restart st))).
Proof.
  intros Hwf. destruct (handlers_preserve_wf fs k i st Hwf) as (Ht & Hr & Hf).
  split; [apply wf_catalog|]. split; [exact Ht|]. split; [exact Hr|].
  split; [exact Hf|]. split; [apply randomize_lot_wf, Hwf|].
  intros Hfile. unfold restart, load_data. cbn [DATA_FILE]. rewrite Hfile.
  exact Hwf.
Qed.

(** X20. What a new process starts from: without a file, the catalog with every
    space empty; after a handler has answered 200, the dictionary exactly
    as that handler left it in memory. *)
Theorem restart_reloads_last_write k i g st :
  (DATA_FILE st = None -> restart st = startup) /\
  (forall r, fst (toggle_space true k i st) = Ret r -> status r = 200 ->
     PARKING_LOTS (restart (snd (toggle_space true k i st)))
     = PARKING_LOTS (snd (toggle_space true k i st))) /\
  (forall r, fst (reset_lot true k st) = Ret r -> status r = 200 ->
     PARKING_LOTS (restart (snd (reset_lot true k st)))
     = PARKING_LOTS (snd (reset_lot true k st))) /\
  (forall r, fst (fill_lot true k st) = Ret r -> status r = 200 ->
     PARKING_LOTS (restart (snd (fill_lot true k st)))
     = PARKING_LOTS (snd (fill_lot true k st))) /\
  (forall r, fst (fst (randomize_lot randint sample true k g st)) = Ret r ->
     status r = 200 ->
     PARKING_LOTS (restart (snd (fst (randomize_lot randint sample true k g st))))
     = PARKING_LOTS (snd (fst (randomize_lot randint sample true k g st)))).
Proof.
  assert (Hload : forall s, DATA_FILE s = Some (PARKING_LOTS s) ->
                            PARKING_LOTS (restart s) = PARKING_LOTS s).
  { intros s Hs. unfold restart, load_data. cbn [DATA_FILE]. rewrite Hs. reflexivity. }
  split; [intros Hnone; unfold restart, load_data; cbn [DATA_FILE];
          rewrite Hnone; reflexivity|].
  split; [|split; [|split]].
  - intros r Hr Hst. apply Hload.
    destruct (store_get k (PARKING_LOTS st)) as [l|] eqn:H.
    2:{ rewrite toggle_space_missing in Hr by exact H.
        injection Hr as <-. discriminate Hst. }
    destruct (Z.lt_ge_cases i 0) as [?|Hi0].
    { rewrite (toggle_space_out_of_range true k i st l) in Hr by auto.
      injection Hr as <-. discriminate Hst. }
    destruct (Z.le_gt_cases (total_spaces l) i) as [?|Hi1].
    { rewrite (toggle_space_out_of_range true k i st l) in Hr by auto.
      injection Hr as <-. discriminate Hst. }
    destruct (spaces l !! Z.to_nat i) as [b|] eqn:Hb.
    + rewrite (toggle_space_flips true k i st l b) by (auto; lia). reflexivity.
    + rewrite (toggle_space_short_list true k i st l) in Hr by (auto; lia).
      discriminate Hr.
  - intros r Hr Hst. apply Hload.
    destruct (store_get k (PARKING_LOTS st)) as [l|] eqn:H.
    + rewrite (reset_lot_clears true k st l H). reflexivity.
    + rewrite reset_lot_missing in Hr by exact H.
      injection Hr as <-. discriminate Hst.
  - intros r Hr Hst. apply Hload.
    destruct (store_get k (PARKING_LOTS st)) as [l|] eqn:H.
    + rewrite (fill_lot_fills true k st l H). reflexivity.
    + rewrite fill_lot_missing in Hr by exact H.
      injection Hr as <-. discriminate Hst.
  - intros r Hr Hst. apply Hload. revert Hr. unfold randomize_lot.
    destruct (store_get k (PARKING_LOTS st)) as [l|] eqn:H.
    2:{ cbn [fst snd]. intros Hr. injection Hr as <-. discriminate Hst. }
    rewrite randomize_lot_draw. destruct (drawn_count randint k g) as [n g1].
    unfold set_spaces. cbv beta iota zeta. set (st1 := mk_state _ _).
    destruct ((n <? 0) || (Z.max 0 (total_spaces l) <? n));
      [cbn [fst]; discriminate|].
    destruct (sample (total_spaces l) n g1) as [idxs g2].
    unfold bind. destruct (mark_occupied k idxs st1) as [[[]|e] st2];
      [|cbn [fst]; discriminate].
    intros _. reflexivity.
Qed.

End AnyGenerator.

Lemma randomize_lot_count_too_large_witness :
  let st := mk_state [("14", mk_lot "14" "Lot 14" 10 "Open" 3 7
                               (replicate 10 true))] None in
  fst (fst (randomize_lot least_randint first_sample true "14" tt st))
  = Raise ValueError /\
  store_get "14" (PARKING_LOTS (snd (fst (randomize_lot least_randint first_sample
                                           true "14" tt st))))
  = Some (mk_lot "14" "Lot 14" 10 "Open" 3 7 (replicate 10 false)).
Proof.
  intros st.
  rewrite (randomize_lot_count_too_large least_randint first_sample true "14" tt st
             (mk_lot "14" "Lot 14" 10 "Open" 3 7 (replicate 10 true)) eq_refl).
  - split; reflexivity.
  - right. cbn. lia.
Defined.

Lemma one_space_per_unit_is_kept_witness :
  wf_store (PARKING_LOTS
              (snd (fst (randomize_lot least_randint first_sample true "18" tt startup)))).
Proof.
  apply (one_space_per_unit_is_kept least_randint first_sample true "18" 0 tt startup).
  repeat constructor.
Defined.

Lemma restart_reloads_last_write_witness :
  PARKING_LOTS (restart (snd (toggle_space true "17" 5 startup)))
  = PARKING_LOTS (snd (toggle_space true "17" 5 startup)) /\
  restart startup = startup.
Proof.
  pose proof (restart_reloads_last_write least_randint first_sample "17" 5 tt startup)
    as (Hnone & Htoggle & _).
  split.
  - apply (Htoggle (jsonify (Toggled "17" 5 true 1 34))); reflexivity.
  - apply Hnone. reflexivity.
Defined.

End ServerExtras.

(** ** Server and client together *)

Module EndToEnd.

Import Server ServerFacts.

Section Fetch.

Context {rng : Type} (randint : Z -> Z -> rng -> Z * rng).

(** X21. For a server whose dictionary has the catalog's keys and fixed fields
    and one space per unit of capacity, and a client holding the catalog's
    lots: the client that reads the answer of [get_all_lots] reports
    [True], is connected, and holds for every lot, in the server's order,
    exactly the server's number of occupied spaces. *)
Theorem client_mirrors_server now (st : state) (sys : Client.ParkingSystem) (g : rng) :
  store_meta (PARKING_LOTS st) = store_meta catalog ->
  wf_store (PARKING_LOTS st) ->
  Client.catalog_shaped (Client._lots sys) ->
  exists xs,
    get_all_lots now st = (Ret (mk_response 200 (Lots xs)), st) /\
    let out := Client.refresh_data randint sys (Client.Response 200 (Some (map as_lot_data xs))) g in
    fst (fst out) = Some true /\
    Client.is_server_connected (snd (fst out)) = true /\
    map (fun lot => (Client._lot_id lot, Client._occupied_spaces lot))
        (Client._lots (snd (fst out)))
    = map (fun kv => (fst kv, sum (spaces (snd kv)))) (PARKING_LOTS st).
Proof.
  intros Hmeta Hwf Hshape.
  destruct st as [s file]. cbn [PARKING_LOTS] in *.
  destruct s as [|[k1 l1] [|[k2 l2] [|[k3 l3] [|[k4 l4] [|? ?]]]]];
    try discriminate Hmeta.
  unfold store_meta, meta in Hmeta. cbn in Hmeta.
  injection Hmeta as -> Hi1 Hn1 Ht1 Hp1 Hd1 Hw1 -> Hi2 Hn2 Ht2 Hp2 Hd2 Hw2
                     -> Hi3 Hn3 Ht3 Hp3 Hd3 Hw3 -> Hi4 Hn4 Ht4 Hp4 Hd4 Hw4.
  apply Forall_cons in Hwf as [W1 Hwf]. apply Forall_cons in Hwf as [W2 Hwf].
  apply Forall_cons in Hwf as [W3 Hwf]. apply Forall_cons in Hwf as [W4 _].
  unfold wf_lot in *. cbn [snd] in *.
  pose proof (sum_bounds (spaces l1)). pose proof (sum_bounds (spaces l2)).
  pose proof (sum_bounds (spaces l3)). pose proof (sum_bounds (spaces l4)).
  eexists. split.
  - apply (ServerExtras.get_all_lots_summaries now). apply (bool_decide_unpack _).
    vm_compute. exact I.
  - cbv zeta. cbn [map fst snd PARKING_LOTS].
    unfold as_lot_data, summary_of. cbn [s_lot_id s_occupied_spaces].
    rewrite Hi1, Hi2, Hi3, Hi4.
    pose proof (ClientFacts.refresh_data_mirrors randint sys (sum (spaces l1)) (sum (spaces l2))
                  (sum (spaces l3)) (sum (spaces l4)) g Hshape
                  ltac:(lia) ltac:(lia) ltac:(lia) ltac:(lia)) as Hm.
    cbv zeta in Hm.
    destruct (Client.refresh_data randint sys _ g) as [[res sys'] g'].
    exact Hm.
Qed.

End Fetch.

Lemma client_mirrors_server_witness :
  map Client._occupied_spaces
    (Client._lots (snd (fst (Client.refresh_data least_randint Client.new_ParkingSystem
       (Client.Response 200
          (Some (map as_lot_data
             (map (fun kv => summary_of "now" (snd kv))
                  (PARKING_LOTS (snd (fill_lot true "18" startup)))))))
       tt))))
  = [0; 45; 0; 0].
Proof.
  destruct (client_mirrors_server least_randint "now"
              (snd (fill_lot true "18" startup)) Client.new_ParkingSystem tt
              eq_refl ltac:(repeat constructor) eq_refl)
    as (xs & Hxs & _ & _ & Hcounts).
  injection Hxs as <-.
  apply (f_equal (map snd)) in Hcounts. rewrite !map_map in Hcounts.
  exact Hcounts.
Defined.

End EndToEnd.
